(** * Ingestion of users and posts into an entity/relationship graph

    A shallow embedding of [src/index.ts]: the HTTP client wrapper
    ([ThirdPartyApiClient]), the two record sources ([UsersApi], [PostsApi]),
    the identity helpers ([getUserId], [getPostId]) and the ingestion driver
    (the async function the module runs).  The graph store the driver imports
    from [./graph] is modelled from the specification, in [Module Graph].

    JavaScript effects are made explicit: a computation threads a state (the
    graph object and the trace of what happened so far) and completes either
    normally or by throwing. *)

From stdpp Require Import gmap strings list fin_maps pretty.

(** ** Record shapes (the interfaces of [src/index.ts]) *)

Module Post.
Record t := mk {
  id : Z;
  userId : Z;
  title : string;
  body : string
}.
End Post.

Module Geo.
Record t := mk { lat : string; lng : string }.
End Geo.

Module Address.
Record t := mk {
  street : string;
  suite : string;
  city : string;
  zipcode : string;
  geo : Geo.t
}.
End Address.

Module Company.
Record t := mk { name : string; catchPhrase : string; bs : string }.
End Company.

Module User.
Record t := mk {
  id : Z;
  name : string;
  username : string;
  email : string;
  address : Address.t;
  phone : string;
  website : string;
  company : Company.t
}.
End User.

(** The payload handed to the store as [attributes]: the record itself,
    verbatim.  The store never looks inside. *)
Inductive Attributes :=
| AttrUser (user : User.t)
| AttrPost (post : Post.t).

(** ** The graph store *)

Module Graph.

(** Modelled from the spec: the [Entity] of [./graph], which is not among
    the sources.  An entity has an [id], a [type] and its [attributes]. *)
Record Entity := mkEntity {
  id : string;
  type : string;
  attributes : Attributes
}.

(** Modelled from the spec: the [Relationship] of [./graph].  It references
    its endpoints by identity, that is by the id under which the store holds
    them, and carries a [label]. *)
Record Relationship := mkRelationship {
  from : string;
  to : string;
  label : string
}.

(** Modelled from the spec: the duplicate-identity policy, [Overwrite]
    (last write wins) being the default and [Reject] the optional strict
    mode. *)
Inductive Policy := Overwrite | Reject.

(** Modelled from the spec: the two errors of the store's taxonomy. *)
Inductive Error :=
| DuplicateEntityError (id : string)
| InvalidReferenceError (id : string).

Inductive Outcome (A : Type) :=
| Ok (a : A)
| Raise (e : Error).
Arguments Ok {A} a.
Arguments Raise {A} e.

(** Modelled from the spec: the [Graph] class of [./graph].  It owns a
    mapping from entity id to entity, the order in which ids were first
    created, and the sequence of relationships. *)
Record t := mk {
  policy : Policy;
  entities : gmap string Entity;
  order : list string;
  relationships : list Relationship
}.

(** Modelled from the spec: [new Graph()], empty, with the default policy. *)
Definition new : t :=
  {| policy := Overwrite; entities := ∅; order := []; relationships := [] |}.

(** The optional strict store. *)
Definition newStrict : t :=
  {| policy := Reject; entities := ∅; order := []; relationships := [] |}.

(** Modelled from the spec: [findEntityById], a lookup in the mapping;
    [None] is the "not found" result. *)
Definition findEntityById (g : t) (id : string) : option Entity :=
  entities g !! id.

(** Modelled from the spec: [createEntity].  A fresh id is inserted in the
    mapping and appended to the creation order.  An id already present is
    overwritten in place under [Overwrite] (its place in the order is kept)
    and reported as a [DuplicateEntityError] under [Reject]. *)
Definition createEntity (g : t) (id type : string) (attributes : Attributes)
  : Outcome Entity * t :=
  let e := mkEntity id type attributes in
  match entities g !! id with
  | None =>
      (Ok e, {| policy := policy g;
                entities := <[id := e]> (entities g);
                order := order g ++ [id];
                relationships := relationships g |})
  | Some _ =>
      match policy g with
      | Overwrite =>
          (Ok e, {| policy := policy g;
                    entities := <[id := e]> (entities g);
                    order := order g;
                    relationships := relationships g |})
      | Reject => (Raise (DuplicateEntityError id), g)
      end
  end.

(** Modelled from the spec: [createRelationship].  Both handles must denote
    entities of this store, which is checked against the mapping by id; a
    handle that does not is an [InvalidReferenceError] and nothing is
    recorded.  Otherwise the relationship is appended to the sequence. *)
Definition createRelationship (g : t) (from to : Entity) (label : string)
  : Outcome Relationship * t :=
  match entities g !! id from, entities g !! id to with
  | Some _, Some _ =>
      let r := mkRelationship (id from) (id to) label in
      (Ok r, {| policy := policy g;
                entities := entities g;
                order := order g;
                relationships := relationships g ++ [r] |})
  | None, _ => (Raise (InvalidReferenceError (id from)), g)
  | Some _, None => (Raise (InvalidReferenceError (id to)), g)
  end.

(** Modelled from the spec: enumeration of the entities in creation order,
    and the two counts. *)
Definition entityList (g : t) : list Entity :=
  omap (λ i, entities g !! i) (order g).

Definition entityCount (g : t) : nat := length (entityList g).

Definition relationshipCount (g : t) : nat := length (relationships g).

(** The calls a client can make, as data, and the effect of one call on the
    store. *)
Inductive Op :=
| CreateEntity (id type : string) (attributes : Attributes)
| FindEntityById (id : string)
| CreateRelationship (from to : Entity) (label : string).

Definition apply (g : t) (op : Op) : t :=
  match op with
  | CreateEntity i ty a => (createEntity g i ty a).2
  | FindEntityById _ => g
  | CreateRelationship f t l => (createRelationship g f t l).2
  end.

Definition exec (ops : list Op) (g : t) : t := foldl apply g ops.

(** Did the call raise? *)
Definition raises (g : t) (op : Op) : bool :=
  match op with
  | CreateEntity i ty a =>
      match (createEntity g i ty a).1 with Ok _ => false | Raise _ => true end
  | FindEntityById _ => false
  | CreateRelationship f t l =>
      match (createRelationship g f t l).1 with Ok _ => false | Raise _ => true end
  end.

(** Does the call create (or overwrite) the entity [i]? *)
Definition creates (i : string) (op : Op) : bool :=
  match op with
  | CreateEntity j _ _ => bool_decide (j = i)
  | _ => false
  end.

(** Referential integrity of a store: the endpoints of every relationship
    are found by [findEntityById]. *)
Definition integral (g : t) : Prop :=
  ∀ r, r ∈ relationships g →
    is_Some (findEntityById g (from r)) ∧ is_Some (findEntityById g (to r)).

(** The bookkeeping invariant: the creation order lists exactly the keys of
    the mapping, each once, and every entity is held under its own id. *)
Definition coherent (g : t) : Prop :=
  NoDup (order g)
  ∧ (∀ i, i ∈ order g ↔ is_Some (entities g !! i))
  ∧ (∀ i e, entities g !! i = Some e → id e = i).

End Graph.


(** ** JavaScript computations *)

(** The two record sources. *)
Inductive Source := Users | Posts.

(** What the run does, in order: requests sent, lines printed by
    [console.log], callbacks entered and settled, calls made on the graph. *)
Inductive Event :=
| EvFetch (url : string)
| EvLog (line : string)
| EvCallbackEnter (src : Source)
| EvCallbackSettle (src : Source) (fulfilled : bool)
| EvGraph (op : Graph.Op).

(** The state a computation threads: the [graph] object of the driver and the
    trace so far. *)
Record State := mkState {
  graph : Graph.t;
  trace : list Event
}.

(** What can be thrown: the [TypeError] of the language, or an error of the
    store. *)
Inductive Exn :=
| TypeError (message : string)
| GraphError (e : Graph.Error).

Inductive Completion (A : Type) :=
| Normal (a : A)
| Throw (e : Exn).
Arguments Normal {A} a.
Arguments Throw {A} e.

Definition M (A : Type) : Type := State → Completion A * State.

Global Instance M_ret : MRet M := λ A (a : A) s, (Normal a, s).

Global Instance M_bind : MBind M := λ A B (k : A → M B) (m : M A) s,
  match m s with
  | (Normal a, s') => k a s'
  | (Throw e, s') => (Throw e, s')
  end.

Definition throw {A} (e : Exn) : M A := λ s, (Throw e, s).

Definition emit (ev : Event) : M unit :=
  λ s, (Normal tt, {| graph := graph s; trace := trace s ++ [ev] |}).

(** A method call on the [graph] object: the store changes as the method
    says, the call is traced, and an error of the store is thrown. *)
Definition call {A} (op : Graph.Op) (method : Graph.t → Graph.Outcome A * Graph.t)
  : M A :=
  λ s, let '(r, g') := method (graph s) in
       let s' := {| graph := g'; trace := trace s ++ [EvGraph op] |} in
       match r with
       | Graph.Ok a => (Normal a, s')
       | Graph.Raise e => (Throw (GraphError e), s')
       end.

Definition createEntity (id type : string) (attributes : Attributes)
  : M Graph.Entity :=
  call (Graph.CreateEntity id type attributes)
       (λ g, Graph.createEntity g id type attributes).

Definition findEntityById (id : string) : M (option Graph.Entity) :=
  call (Graph.FindEntityById id) (λ g, (Graph.Ok (Graph.findEntityById g id), g)).

Definition createRelationship (from to : Graph.Entity) (label : string)
  : M Graph.Relationship :=
  call (Graph.CreateRelationship from to label)
       (λ g, Graph.createRelationship g from to label).

(** [`${n}`] for a number [n] that is an integer below [10^21] in magnitude:
    its decimal digits, with a minus sign when negative.  (From [10^21] on
    the language prints an exponent, and a number that is no integer prints a
    fraction; such ids are not covered.) *)
Definition Number_toString (n : Z) : string := pretty n.

(** A [FetchError] of node-fetch: [code] may be absent, and then prints as
    [undefined]. *)
Record FetchError := mkFetchError {
  code : option string;
  message : string
}.

Definition show_code (c : option string) : string :=
  match c with Some c => c | None => "undefined" end.

(** A parsed body that is no array: [null], or an object, a number, a string
    or a boolean. *)
Inductive NonArray := JsonNull | JsonNonNull.

(** How [fetch(url)] followed by [response.json()] ends: with the parsed
    body, an array of records or something that is no array ([get] checks
    neither the status nor the shape); with a [FetchError]; or with something
    else thrown. *)
Inductive FetchOutcome (R : Type) :=
| Delivered (records : list R)
| DeliveredNonArray (body : NonArray)
| Failed (error : FetchError)
| FailedOtherwise.
Arguments Delivered {R} records.
Arguments DeliveredNonArray {R} body.
Arguments Failed {R} error.
Arguments FailedOtherwise {R}.

(** The network: what each url answers, read at the record type the caller
    annotates the response with ([User[]] or [Post[]]). *)
Record Network := mkNetwork {
  users_at : string → FetchOutcome User.t;
  posts_at : string → FetchOutcome Post.t
}.

(** What [get] resolves to: the body, or [undefined] when the function falls
    off its end after the [catch]. *)
Inductive Response (R : Type) :=
| Body (records : list R)
| NonArrayBody (body : NonArray)
| Undefined.
Arguments Body {R} records.
Arguments NonArrayBody {R} body.
Arguments Undefined {R}.

(** ** [ThirdPartyApiClient] *)

Record ThirdPartyApiClient := mkClient { baseUrl : string }.

Definition withBaseUrl (this : ThirdPartyApiClient) (path : string) : string :=
  baseUrl this +:+ path.

(** The line the [catch] of [get] prints for a [FetchError]. *)
Definition log_line (this : ThirdPartyApiClient) (path : string)
    (error : FetchError) : string :=
  "Endpoint: " +:+ baseUrl this +:+ path
  +:+ "|Code: " +:+ show_code (code error)
  +:+ "|Message: " +:+ message error.

(** [get]: the [try] returns the parsed body; the [catch] logs a [FetchError],
    swallows anything else silently, and returns nothing. *)
Definition get {R} (fetch : string → FetchOutcome R)
    (this : ThirdPartyApiClient) (path : string) : M (Response R) :=
  emit (EvFetch (withBaseUrl this path));;
  match fetch (withBaseUrl this path) with
  | Delivered data => mret (Body data)
  | DeliveredNonArray data => mret (NonArrayBody data)
  | Failed error => emit (EvLog (log_line this path error));; mret Undefined
  | FailedOtherwise => mret Undefined
  end.

(** [Array.prototype.forEach]: the callback is called on each element in
    order, its result dropped; what it throws escapes. *)
Fixpoint forEach {R} (array : list R) (callback : R → M unit) : M unit :=
  match array with
  | [] => mret tt
  | x :: rest => callback x;; forEach rest callback
  end.

(** [response.forEach(...)] on what [get] resolved to: reading [forEach] off
    [undefined] or [null] throws a [TypeError], and so does calling the
    [forEach] of a value that has none. *)
Definition response_forEach {R} (response : Response R) (callback : R → M unit)
  : M unit :=
  match response with
  | Body array => forEach array callback
  | NonArrayBody JsonNull =>
      throw (TypeError "Cannot read properties of null (reading 'forEach')")
  | NonArrayBody JsonNonNull =>
      throw (TypeError "response.forEach is not a function")
  | Undefined =>
      throw (TypeError "Cannot read properties of undefined (reading 'forEach')")
  end.

(** ** [PostsApi] and [UsersApi] *)

Definition iteratePosts (net : Network) (this : ThirdPartyApiClient)
    (callback : Post.t → M unit) : M unit :=
  response ← get (posts_at net) this "/posts";
  response_forEach response callback.

Definition iterateUsers (net : Network) (this : ThirdPartyApiClient)
    (callback : User.t → M unit) : M unit :=
  response ← get (users_at net) this "/users";
  response_forEach response callback.

(** ** Identity helpers *)

Definition getUserId (user : User.t) : string :=
  "user:" +:+ Number_toString (User.id user).

Definition getPostId (post : Post.t) : string :=
  "post:" +:+ Number_toString (Post.id post).

(** ** The ingestion driver *)

(** An [async] arrow function with no [await] in its body, called by
    [forEach]: the body runs to its end during the call, and the call returns
    a promise, fulfilled if the body completed and rejected if it threw.
    Nothing escapes into the caller, which drops the promise. *)
Definition async {R} (src : Source) (body : R → M unit) : R → M unit :=
  λ r s,
    let s0 := {| graph := graph s; trace := trace s ++ [EvCallbackEnter src] |} in
    match body r s0 with
    | (Normal _, s1) =>
        (Normal tt, {| graph := graph s1;
                       trace := trace s1 ++ [EvCallbackSettle src true] |})
    | (Throw _, s1) =>
        (Normal tt, {| graph := graph s1;
                       trace := trace s1 ++ [EvCallbackSettle src false] |})
    end.

Definition onUser (user : User.t) : M unit :=
  createEntity (getUserId user) "User" (AttrUser user);;
  mret tt.

Definition onPost (post : Post.t) : M unit :=
  postEntity ← createEntity (getPostId post) "Post" (AttrPost post);
  userEntity ← findEntityById ("user:" +:+ Number_toString (Post.userId post));
  match userEntity with
  | Some userEntity =>
      createRelationship userEntity postEntity "HAS";;
      mret tt
  | None => mret tt
  end.

Definition postsApi : ThirdPartyApiClient :=
  mkClient "https://jsonplaceholder.typicode.com".

Definition usersApi : ThirdPartyApiClient :=
  mkClient "https://jsonplaceholder.typicode.com".

(** The body of the async function of the module, up to the hand-over of the
    graph to the test harness: users first, awaited, then posts. *)
Definition main (net : Network) : M unit :=
  iterateUsers net usersApi (async Users onUser);;
  iteratePosts net postsApi (async Posts onPost).

(** A run starts with [const graph = new Graph()] and an empty trace. *)
Definition initial : State := {| graph := Graph.new; trace := [] |}.

Definition run (net : Network) : Completion unit * State := main net initial.

(** The graph a trace builds, replaying the calls it records. *)
Definition ops_of (tr : list Event) : list Graph.Op :=
  omap (λ ev, match ev with EvGraph op => Some op | _ => None end) tr.

Definition replay (tr : list Event) : Graph.t := Graph.exec (ops_of tr) Graph.new.

(** A network that answers the same whatever the url. *)
Definition constant_network (users : FetchOutcome User.t)
    (posts : FetchOutcome Post.t) : Network :=
  {| users_at := λ _, users; posts_at := λ _, posts |}.

Definition sample_user (n : Z) : User.t :=
  User.mk n "Leanne Graham" "Bret" "Sincere@april.biz"
    (Address.mk "Kulas Light" "Apt. 556" "Gwenborough" "92998-3874"
       (Geo.mk "-37.3159" "81.1496"))
    "1-770-736-8031 x56442" "hildegard.org"
    (Company.mk "Romaguera-Crona" "Multi-layered client-server neural-net"
       "harness real-time e-markets").

Definition sample_post (n userId : Z) : Post.t :=
  Post.mk n userId "qui est esse" "est rerum tempore vitae".


(** ** What the calls leave in the trace *)

Definition get_events {R} (fetch : string → FetchOutcome R)
    (this : ThirdPartyApiClient) (path : string) : list Event :=
  EvFetch (withBaseUrl this path)
  :: match fetch (withBaseUrl this path) with
     | Failed error => [EvLog (log_line this path error)]
     | _ => []
     end.

Definition response_of {R} (outcome : FetchOutcome R) : Response R :=
  match outcome with
  | Delivered data => Body data
  | DeliveredNonArray data => NonArrayBody data
  | Failed _ | FailedOtherwise => Undefined
  end.

(** An array of records was delivered. *)
Definition delivered {R} (outcome : FetchOutcome R) : bool :=
  match outcome with Delivered _ => true | _ => false end.

(** The fetch, or the parsing of the body, threw. *)
Definition failed {R} (outcome : FetchOutcome R) : bool :=
  match outcome with Failed _ | FailedOtherwise => true | _ => false end.

Definition usersUrl : string := withBaseUrl usersApi "/users".
Definition postsUrl : string := withBaseUrl postsApi "/posts".

Definition undefined_forEach : Exn :=
  TypeError "Cannot read properties of undefined (reading 'forEach')".

(** What [response.forEach] throws on a response that is no array. *)
Definition forEach_error {R} (response : Response R) : Exn :=
  match response with
  | NonArrayBody JsonNull =>
      TypeError "Cannot read properties of null (reading 'forEach')"
  | NonArrayBody JsonNonNull => TypeError "response.forEach is not a function"
  | Body _ | Undefined => undefined_forEach
  end.

Definition userOp (user : User.t) : Graph.Op :=
  Graph.CreateEntity (getUserId user) "User" (AttrUser user).

Definition user_events (user : User.t) : list Event :=
  [EvCallbackEnter Users; EvGraph (userOp user); EvCallbackSettle Users true].

Definition authorId (post : Post.t) : string :=
  "user:" +:+ Number_toString (Post.userId post).

Definition postEntityOf (post : Post.t) : Graph.Entity :=
  Graph.mkEntity (getPostId post) "Post" (AttrPost post).

(** The events of the callback on [post] when the store is [g] at its
    start. *)
Definition post_events (g : Graph.t) (post : Post.t) : list Event :=
  let g1 := (Graph.createEntity g (getPostId post) "Post" (AttrPost post)).2 in
  [EvCallbackEnter Posts;
   EvGraph (Graph.CreateEntity (getPostId post) "Post" (AttrPost post));
   EvGraph (Graph.FindEntityById (authorId post))]
  ++ match Graph.findEntityById g1 (authorId post) with
     | Some userEntity =>
         [EvGraph (Graph.CreateRelationship userEntity (postEntityOf post) "HAS")]
     | None => []
     end
  ++ [EvCallbackSettle Posts true].

Fixpoint posts_events (g : Graph.t) (posts : list Post.t) : list Event :=
  match posts with
  | [] => []
  | post :: rest =>
      post_events g post
      ++ posts_events (Graph.exec (ops_of (post_events g post)) g) rest
  end.

Definition users_events (users : list User.t) : list Event :=
  concat (map user_events users).

(** The store once the users are in, and once the posts are in too. *)
Definition after_users (users : list User.t) : Graph.t :=
  Graph.exec (userOp <$> users) Graph.new.

Definition after_posts (users : list User.t) (posts : list Post.t) : Graph.t :=
  Graph.exec (ops_of (posts_events (after_users users) posts)) (after_users users).

(** Events of the people ingestion, and events of the post ingestion. *)
Definition about_users (ev : Event) : bool :=
  match ev with
  | EvFetch url => bool_decide (url = withBaseUrl usersApi "/users")
  | EvCallbackEnter Users | EvCallbackSettle Users _ => true
  | EvGraph (Graph.CreateEntity _ _ (AttrUser _)) => true
  | _ => false
  end.

Definition about_posts (ev : Event) : bool :=
  match ev with
  | EvFetch url => bool_decide (url = withBaseUrl postsApi "/posts")
  | EvCallbackEnter Posts | EvCallbackSettle Posts _ => true
  | EvGraph (Graph.CreateEntity _ _ (AttrPost _)) => true
  | EvGraph (Graph.FindEntityById _) => true
  | EvGraph (Graph.CreateRelationship _ _ _) => true
  | _ => false
  end.

(** A sequence of [createEntity] calls, each given by its arguments. *)
Definition creation (c : string * string * Attributes) : Graph.Op :=
  Graph.CreateEntity c.1.1 c.1.2 c.2.

(** The state of a run is one the driver can be in: its graph is the one its
    trace builds from [new Graph()]. *)
Definition consistent (s : State) : Prop := graph s = replay (trace s).

(** The store of the driver: default policy, coherent bookkeeping. *)
Definition ready (g : Graph.t) : Prop :=
  Graph.policy g = Graph.Overwrite ∧ Graph.coherent g.

(** ** Vocabulary for the results of a run *)

Definition postOp (post : Post.t) : Graph.Op :=
  Graph.CreateEntity (getPostId post) "Post" (AttrPost post).

Definition userEntityOf (user : User.t) : Graph.Entity :=
  Graph.mkEntity (getUserId user) "User" (AttrUser user).

(** Is the author of [post] among [users]? *)
Definition authored (users : list User.t) (post : Post.t) : bool :=
  bool_decide (Post.userId post ∈ User.id <$> users).

(** The relationship the driver records for a post whose author is known. *)
Definition has (post : Post.t) : Graph.Relationship :=
  Graph.mkRelationship (authorId post) (getPostId post) "HAS".

(** The entities [createEntity] was called for, in the order of the calls. *)
Definition createEntity_calls (tr : list Event) : list Graph.Entity :=
  omap (λ ev, match ev with
              | EvGraph (Graph.CreateEntity i ty a) => Some (Graph.mkEntity i ty a)
              | _ => None
              end) tr.

(** A callback whose promise was rejected. *)
Definition rejected (ev : Event) : bool :=
  match ev with
  | EvCallbackSettle _ false => true
  | _ => false
  end.

(** Was [url] requested? *)
Definition fetched (url : string) (tr : list Event) : bool :=
  existsb (λ ev, match ev with
                 | EvFetch u => bool_decide (u = url)
                 | _ => false
                 end) tr.

(** The lines printed by [console.log]. *)
Definition logged (tr : list Event) : list string :=
  omap (λ ev, match ev with EvLog line => Some line | _ => None end) tr.

(** A callback that is no [async] function and throws on the post numbered
    [n]. *)
Definition picky (n : Z) (post : Post.t) : M unit :=
  if bool_decide (Post.id post = n)
  then throw (TypeError "unexpected post")
  else emit (EvLog (Post.title post)).

(** ** Handles given out by the store *)

(** The handles a store gives out along a sequence of calls made on it from
    the state [g]: the entity each successful [createEntity] returns and the
    entity each [findEntityById] finds. *)
Fixpoint handles_from (g : Graph.t) (ops : list Graph.Op) : list Graph.Entity :=
  match ops with
  | [] => []
  | op :: rest =>
      match op with
      | Graph.CreateEntity i ty a =>
          match (Graph.createEntity g i ty a).1 with
          | Graph.Ok e => [e]
          | Graph.Raise _ => []
          end
      | Graph.FindEntityById i => option_list (Graph.findEntityById g i)
      | Graph.CreateRelationship _ _ _ => []
      end
      ++ handles_from (Graph.apply g op) rest
  end.

(** The handles obtained from a store instance whose history is [ops]. *)
Definition handles (ops : list Graph.Op) : list Graph.Entity :=
  handles_from Graph.new ops.

(** ** The graph as a function of the records *)

(** The records the two sources hand to the callbacks in a run: the users
    when their fetch delivers an array, and the posts when both fetches do
    (the posts are not asked for otherwise). *)
Definition users_delivered (net : Network) : list User.t :=
  match users_at net usersUrl with
  | Delivered users => users
  | _ => []
  end.

Definition posts_delivered (net : Network) : list Post.t :=
  match users_at net usersUrl, posts_at net postsUrl with
  | Delivered _, Delivered posts => posts
  | _, _ => []
  end.

(** The entities [createEntity] is asked for by a sequence of calls. *)
Definition created_by (ops : list Graph.Op) : list Graph.Entity :=
  omap (λ op, match op with
              | Graph.CreateEntity i ty a => Some (Graph.mkEntity i ty a)
              | _ => None
              end) ops.

(** The ids of a sequence in the order of their first occurrence, after
    those already [seen]. *)
Definition first_occurrences (seen ids : list string) : list string :=
  foldl (λ seen i, if decide (i ∈ seen) then seen else seen ++ [i]) seen ids.

(** The map in which each id denotes the last entity of the sequence that
    carries it. *)
Definition latest (m : gmap string Graph.Entity) (es : list Graph.Entity)
  : gmap string Graph.Entity :=
  foldl (λ m e, <[Graph.id e := e]> m) m es.

(** The graph written out from the delivered records alone: each id denotes
    the last record delivered under it, the ids are ordered by first
    delivery, users before posts, and there is one relationship per post
    whose author is among the users, in the order of the posts. *)
Definition ingest (users : list User.t) (posts : list Post.t) : Graph.t :=
  {| Graph.policy := Graph.Overwrite;
     Graph.entities :=
       latest ∅ ((userEntityOf <$> users) ++ (postEntityOf <$> posts));
     Graph.order :=
       first_occurrences []
         ((getUserId <$> users) ++ (getPostId <$> posts));
     Graph.relationships :=
       has <$> filter (λ post, authored users post) posts |}.

(** * Properties *)

(** ** The store *)

Section GraphFacts.
Implicit Types (g : Graph.t) (i j : string) (op : Graph.Op) (ops : list Graph.Op).

Lemma exec_app ops1 ops2 g :
  Graph.exec (ops1 ++ ops2) g = Graph.exec ops2 (Graph.exec ops1 g).
Proof. unfold Graph.exec. apply foldl_app. Qed.

Lemma exec_snoc ops op g :
  Graph.exec (ops ++ [op]) g = Graph.apply (Graph.exec ops g) op.
Proof. by rewrite exec_app. Qed.

Lemma createEntity_policy g i ty a :
  Graph.policy (Graph.createEntity g i ty a).2 = Graph.policy g.
Proof.
  unfold Graph.createEntity.
  destruct (Graph.entities g !! i); [destruct (Graph.policy g) eqn:E|]; simpl; congruence.
Qed.

Lemma createRelationship_policy g f t l :
  Graph.policy (Graph.createRelationship g f t l).2 = Graph.policy g.
Proof.
  unfold Graph.createRelationship.
  destruct (Graph.entities g !! Graph.id f), (Graph.entities g !! Graph.id t); done.
Qed.

Lemma apply_policy g op : Graph.policy (Graph.apply g op) = Graph.policy g.
Proof.
  destruct op; simpl; auto using createEntity_policy, createRelationship_policy.
Qed.

Lemma exec_policy ops g : Graph.policy (Graph.exec ops g) = Graph.policy g.
Proof.
  revert g. induction ops as [|op ops IH]; intros g; [done|].
  simpl. rewrite IH. apply apply_policy.
Qed.

(** Under the default policy [createEntity] returns the entity it was asked
    for and stores it under its id. *)
Lemma createEntity_overwrite g i ty a :
  Graph.policy g = Graph.Overwrite →
  (Graph.createEntity g i ty a).1 = Graph.Ok (Graph.mkEntity i ty a)
  ∧ Graph.entities (Graph.createEntity g i ty a).2
    = <[i := Graph.mkEntity i ty a]> (Graph.entities g)
  ∧ Graph.relationships (Graph.createEntity g i ty a).2 = Graph.relationships g.
Proof.
  intros Hp. unfold Graph.createEntity.
  destruct (Graph.entities g !! i); [rewrite Hp|]; done.
Qed.

Lemma createEntity_relationships g i ty a :
  Graph.relationships (Graph.createEntity g i ty a).2 = Graph.relationships g.
Proof.
  unfold Graph.createEntity.
  destruct (Graph.entities g !! i); [destruct (Graph.policy g)|]; done.
Qed.

Lemma createRelationship_entities g f t l :
  Graph.entities (Graph.createRelationship g f t l).2 = Graph.entities g.
Proof.
  unfold Graph.createRelationship.
  destruct (Graph.entities g !! Graph.id f), (Graph.entities g !! Graph.id t); done.
Qed.

Lemma createRelationship_order g f t l :
  Graph.order (Graph.createRelationship g f t l).2 = Graph.order g.
Proof.
  unfold Graph.createRelationship.
  destruct (Graph.entities g !! Graph.id f), (Graph.entities g !! Graph.id t); done.
Qed.

(** A call that does not create [i] leaves the entry of [i] as it is. *)
Lemma apply_lookup_other g op i :
  Graph.creates i op = false →
  Graph.entities (Graph.apply g op) !! i = Graph.entities g !! i.
Proof.
  destruct op as [j ty a| |f t l]; simpl; intros Hc.
  - apply bool_decide_eq_false in Hc. unfold Graph.createEntity.
    destruct (Graph.entities g !! j); [destruct (Graph.policy g)|]; simpl;
      by rewrite ?lookup_insert_ne.
  - done.
  - by rewrite createRelationship_entities.
Qed.

Lemma exec_lookup_other ops g i :
  existsb (Graph.creates i) ops = false →
  Graph.entities (Graph.exec ops g) !! i = Graph.entities g !! i.
Proof.
  revert g. induction ops as [|op ops IH]; intros g; simpl; [done|].
  intros [H1 H2]%orb_false_elim. rewrite IH by done. by apply apply_lookup_other.
Qed.

(** No call removes an entity. *)
Lemma apply_lookup_mono g op i :
  is_Some (Graph.entities g !! i) → is_Some (Graph.entities (Graph.apply g op) !! i).
Proof.
  destruct op as [j ty a| |f t l]; simpl; intros Hi.
  - unfold Graph.createEntity.
    destruct (Graph.entities g !! j) eqn:E; [destruct (Graph.policy g)|]; simpl;
      try done; rewrite lookup_insert; case_decide; eauto.
  - done.
  - by rewrite createRelationship_entities.
Qed.

Lemma coherent_new : Graph.coherent Graph.new.
Proof.
  split_and!; simpl.
  - constructor.
  - intros i. rewrite lookup_empty. split; [by intros ?%elem_of_nil|by intros []].
  - intros i e. by rewrite lookup_empty.
Qed.

Lemma coherent_newStrict : Graph.coherent Graph.newStrict.
Proof. exact coherent_new. Qed.

Lemma coherent_createEntity g i ty a :
  Graph.coherent g → Graph.coherent (Graph.createEntity g i ty a).2.
Proof.
  intros (Hnd & Hdom & Hid). unfold Graph.createEntity.
  destruct (Graph.entities g !! i) as [e0|] eqn:E;
    [destruct (Graph.policy g)|]; simpl; [|done|].
  - split_and!; simpl; [done| |].
    + intros j. rewrite lookup_insert. case_decide; subst.
      * split; [eauto|]. intros _. apply Hdom. eauto.
      * apply Hdom.
    + intros j e. rewrite lookup_insert. case_decide; subst; [by intros [= <-]|].
      apply Hid.
  - split_and!; simpl.
    + apply NoDup_app. split_and!; [done| |apply NoDup_singleton].
      intros j Hj ->%list_elem_of_singleton. apply Hdom in Hj.
      rewrite E in Hj. by destruct Hj.
    + intros j. rewrite elem_of_app, list_elem_of_singleton, lookup_insert.
      case_decide; subst; [split; eauto|]. rewrite Hdom.
      split; [by intros [?|?]|by left].
    + intros j e. rewrite lookup_insert. case_decide; subst; [by intros [= <-]|].
      apply Hid.
Qed.

Lemma coherent_createRelationship g f t l :
  Graph.coherent g → Graph.coherent (Graph.createRelationship g f t l).2.
Proof.
  unfold Graph.coherent.
  by rewrite createRelationship_entities, createRelationship_order.
Qed.

Lemma coherent_apply g op : Graph.coherent g → Graph.coherent (Graph.apply g op).
Proof.
  destruct op; simpl; auto using coherent_createEntity, coherent_createRelationship.
Qed.

Lemma coherent_exec ops g : Graph.coherent g → Graph.coherent (Graph.exec ops g).
Proof.
  revert g. induction ops as [|op ops IH]; intros g Hg; [done|].
  simpl. by apply IH, coherent_apply.
Qed.

(** What one call does to the relationship sequence: nothing, or one more
    relationship whose endpoints the store held before the call. *)
Lemma apply_relationships g op :
  Graph.relationships (Graph.apply g op) = Graph.relationships g
  ∨ ∃ r, Graph.relationships (Graph.apply g op) = Graph.relationships g ++ [r]
         ∧ is_Some (Graph.findEntityById g (Graph.from r))
         ∧ is_Some (Graph.findEntityById g (Graph.to r)).
Proof.
  destruct op as [j ty a| |f t l]; simpl.
  - left. apply createEntity_relationships.
  - by left.
  - unfold Graph.createRelationship, Graph.findEntityById.
    destruct (Graph.entities g !! Graph.id f) eqn:Ef;
      [destruct (Graph.entities g !! Graph.id t) eqn:Et|]; simpl; [|by left..].
    right. eexists. split; [done|]. simpl. rewrite Ef, Et. eauto.
Qed.

Lemma integral_new : Graph.integral Graph.new.
Proof. intros r Hr. by apply elem_of_nil in Hr. Qed.

Lemma integral_apply g op : Graph.integral g → Graph.integral (Graph.apply g op).
Proof.
  intros Hg r Hr. unfold Graph.findEntityById.
  destruct (apply_relationships g op) as [Heq|(r' & Heq & Hf & Ht)];
    rewrite Heq in Hr.
  - destruct (Hg r Hr). split; by apply apply_lookup_mono.
  - apply elem_of_app in Hr as [Hr| ->%list_elem_of_singleton].
    + destruct (Hg r Hr). split; by apply apply_lookup_mono.
    + split; by apply apply_lookup_mono.
Qed.

Lemma integral_exec ops g : Graph.integral g → Graph.integral (Graph.exec ops g).
Proof.
  revert g. induction ops as [|op ops IH]; intros g Hg; [done|].
  simpl. by apply IH, integral_apply.
Qed.

End GraphFacts.

(** ** Enumeration, identity and lookup *)

Section Enumeration.
Implicit Types (g : Graph.t) (i j : string) (ops : list Graph.Op).

Lemma omap_lookup_ids (m : gmap string Graph.Entity) (l : list string) :
  (∀ j, j ∈ l → is_Some (m !! j)) →
  (∀ j e, m !! j = Some e → Graph.id e = j) →
  Graph.id <$> omap (λ j, m !! j) l = l.
Proof.
  intros Hdom Hid. induction l as [|j l IH]; [done|].
  simpl. destruct (Hdom j) as [e He]; [by left|]. rewrite He. simpl.
  rewrite (Hid _ _ He). f_equal. apply IH. intros k Hk. apply Hdom. by right.
Qed.

(** In a coherent store the entities enumerate under the ids of the creation
    order. *)
Lemma entityList_ids g :
  Graph.coherent g → Graph.id <$> Graph.entityList g = Graph.order g.
Proof.
  intros (_ & Hdom & Hid). apply omap_lookup_ids; [|done].
  intros j Hj. by apply Hdom.
Qed.

Lemma omap_lookup_filter (m : gmap string Graph.Entity) (l : list string) i :
  NoDup l →
  (∀ j e, m !! j = Some e → Graph.id e = j) →
  filter (λ e, Graph.id e = i) (omap (λ j, m !! j) l)
  = if decide (i ∈ l) then option_list (m !! i) else [].
Proof.
  intros Hnd Hid. induction Hnd as [|j l Hj Hnd IH]; [done|].
  simpl. destruct (decide (j = i)) as [->|Hne].
  - rewrite decide_True by left.
    rewrite decide_False in IH by done.
    destruct (m !! i) as [e|] eqn:He; simpl; [|done].
    rewrite filter_cons_True by eauto. f_equal. exact IH.
  - assert (Hin : i ∈ j :: l ↔ i ∈ l).
    { rewrite elem_of_cons. split; [intros [Heq|?]; [by destruct Hne|done]|by right]. }
    rewrite (decide_ext _ _ _ _ Hin).
    destruct (m !! j) as [e|] eqn:He; simpl; [|done].
    rewrite filter_cons_False; [exact IH|]. by rewrite (Hid _ _ He).
Qed.

(** In a coherent store the entries of the enumeration that carry the id [i]
    are the entity found under [i], if any: one entry or none. *)
Lemma entityList_filter g i :
  Graph.coherent g →
  filter (λ e, Graph.id e = i) (Graph.entityList g)
  = option_list (Graph.findEntityById g i).
Proof.
  intros (Hnd & Hdom & Hid). unfold Graph.entityList, Graph.findEntityById.
  rewrite omap_lookup_filter by done. case_decide as Hi; [done|].
  destruct (Graph.entities g !! i) eqn:E; [|done].
  destruct Hi. apply Hdom. eauto.
Qed.

(** The entity found under [i] is the one of the latest call that created
    [i], when the store overwrites. *)
Lemma exec_lookup_latest ops1 ops2 g i ty a :
  Graph.policy g = Graph.Overwrite →
  existsb (Graph.creates i) ops2 = false →
  Graph.findEntityById (Graph.exec (ops1 ++ Graph.CreateEntity i ty a :: ops2) g) i
  = Some (Graph.mkEntity i ty a).
Proof.
  intros Hp Hc. unfold Graph.findEntityById.
  rewrite exec_app. simpl. rewrite exec_lookup_other by done. simpl.
  destruct (createEntity_overwrite (Graph.exec ops1 g) i ty a) as (_ & -> & _).
  - by rewrite exec_policy.
  - apply lookup_insert_eq.
Qed.

Lemma exec_lookup_never ops i :
  existsb (Graph.creates i) ops = false →
  Graph.findEntityById (Graph.exec ops Graph.new) i = None.
Proof.
  intros Hc. unfold Graph.findEntityById. by rewrite exec_lookup_other.
Qed.

Lemma creates_creation i (c : string * string * Attributes) :
  Graph.creates i (creation c) = bool_decide (c.1.1 = i).
Proof. done. Qed.

End Enumeration.

(** ** The calls of the driver *)

Section Calls.
Implicit Types (s : State) (g : Graph.t).

Lemma bind_normal {A B} (m : M A) (k : A → M B) s a s' :
  m s = (Normal a, s') → (m ≫= k) s = k a s'.
Proof. intros H. unfold mbind, M_bind. by rewrite H. Qed.

Lemma bind_throw {A B} (m : M A) (k : A → M B) s e s' :
  m s = (Throw e, s') → (m ≫= k) s = (Throw e, s').
Proof. intros H. unfold mbind, M_bind. by rewrite H. Qed.

Lemma get_run {R} (fetch : string → FetchOutcome R) this path s :
  get fetch this path s
  = (Normal (response_of (fetch (withBaseUrl this path))),
     {| graph := graph s; trace := trace s ++ get_events fetch this path |}).
Proof.
  unfold get, get_events, mbind, M_bind, emit, mret, M_ret.
  destruct (fetch (withBaseUrl this path)); simpl; [done|done| |done].
  by rewrite <- app_assoc.
Qed.

Lemma ready_new : ready Graph.new.
Proof. split; [done|apply coherent_new]. Qed.

Lemma ready_apply g op : ready g → ready (Graph.apply g op).
Proof.
  intros [Hp Hc]. split; [by rewrite apply_policy|by apply coherent_apply].
Qed.

Lemma ready_exec ops g : ready g → ready (Graph.exec ops g).
Proof.
  intros [Hp Hc]. split; [by rewrite exec_policy|by apply coherent_exec].
Qed.

Lemma call_ok {A} op (method : Graph.t → Graph.Outcome A * Graph.t) s a g' :
  method (graph s) = (Graph.Ok a, g') →
  call op method s
  = (Normal a, {| graph := g'; trace := trace s ++ [EvGraph op] |}).
Proof. intros H. unfold call. by rewrite H. Qed.


Lemma createEntity_ok g i ty a :
  Graph.policy g = Graph.Overwrite →
  Graph.createEntity g i ty a
  = (Graph.Ok (Graph.mkEntity i ty a), Graph.apply g (Graph.CreateEntity i ty a)).
Proof.
  intros Hp. destruct (createEntity_overwrite g i ty a Hp) as (Hr & _).
  simpl. rewrite <- Hr. apply surjective_pairing.
Qed.

Lemma createRelationship_ok g f t l :
  is_Some (Graph.findEntityById g (Graph.id f)) →
  is_Some (Graph.findEntityById g (Graph.id t)) →
  Graph.createRelationship g f t l
  = (Graph.Ok (Graph.mkRelationship (Graph.id f) (Graph.id t) l),
     Graph.apply g (Graph.CreateRelationship f t l)).
Proof.
  unfold Graph.findEntityById. intros [ef Hf] [et Ht]. simpl.
  unfold Graph.createRelationship. by rewrite Hf, Ht.
Qed.

(** The callback on a user: one [createEntity], which succeeds. *)
Lemma onUser_body user s :
  ready (graph s) →
  onUser user s
  = (Normal tt, {| graph := Graph.apply (graph s) (userOp user);
                   trace := trace s ++ [EvGraph (userOp user)] |}).
Proof.
  intros [Hp _]. unfold onUser, createEntity.
  erewrite bind_normal; [done|]. by apply call_ok, createEntity_ok.
Qed.

Lemma onUser_run user s :
  ready (graph s) →
  async Users onUser user s
  = (Normal tt, {| graph := Graph.apply (graph s) (userOp user);
                   trace := trace s ++ user_events user |}).
Proof.
  intros Hr. unfold async. rewrite onUser_body by done.
  cbn [graph trace]. by rewrite <- !app_assoc.
Qed.

(** The author looked up after the post was stored is held under the id
    asked for, and the post is held under its own. *)
Lemma author_found g post u :
  ready g →
  Graph.findEntityById
    (Graph.apply g (Graph.CreateEntity (getPostId post) "Post" (AttrPost post)))
    (authorId post) = Some u →
  Graph.id u = authorId post
  ∧ Graph.createRelationship
      (Graph.apply g (Graph.CreateEntity (getPostId post) "Post" (AttrPost post)))
      u (postEntityOf post) "HAS"
    = (Graph.Ok (Graph.mkRelationship (authorId post) (getPostId post) "HAS"),
       Graph.apply
         (Graph.apply g (Graph.CreateEntity (getPostId post) "Post" (AttrPost post)))
         (Graph.CreateRelationship u (postEntityOf post) "HAS")).
Proof.
  intros Hg Hu.
  pose proof (ready_apply g (Graph.CreateEntity (getPostId post) "Post" (AttrPost post)) Hg)
    as [_ (_ & _ & Hid)].
  pose proof (Hid _ _ Hu) as Hidu. split; [done|].
  rewrite createRelationship_ok.
  - by rewrite Hidu.
  - rewrite Hidu. unfold Graph.findEntityById in *. eauto.
  - unfold Graph.findEntityById. cbn [Graph.apply postEntityOf Graph.id].
    destruct Hg as [Hp _].
    destruct (createEntity_overwrite g (getPostId post) "Post" (AttrPost post) Hp)
      as (_ & -> & _).
    rewrite lookup_insert_eq. eauto.
Qed.

(** The callback on a post: [createEntity], [findEntityById], and
    [createRelationship] when the author was found; none of them throws. *)
Lemma onPost_body post s :
  ready (graph s) →
  onPost post s
  = (Normal tt,
     {| graph := Graph.exec (ops_of (post_events (graph s) post)) (graph s);
        trace := trace s ++ removelast (tail (post_events (graph s) post)) |}).
Proof.
  intros Hg. pose proof Hg as [Hp _]. unfold onPost, createEntity.
  erewrite bind_normal; [|by apply call_ok, createEntity_ok].
  unfold findEntityById. erewrite bind_normal; [|by apply call_ok].
  cbn [graph trace]. unfold post_events. cbn zeta. fold (authorId post).
  change (Graph.createEntity (graph s) (getPostId post) "Post" (AttrPost post)).2
    with (Graph.apply (graph s)
            (Graph.CreateEntity (getPostId post) "Post" (AttrPost post))).
  destruct (Graph.findEntityById _ (authorId post)) as [u|] eqn:Eu.
  - destruct (author_found _ _ _ Hg Eu) as [_ Hcr].
    unfold createRelationship. erewrite bind_normal; [|by apply call_ok].
    cbn. by rewrite <- !app_assoc.
  - cbn. by rewrite <- !app_assoc.
Qed.

Lemma onPost_run post s :
  ready (graph s) →
  async Posts onPost post s
  = (Normal tt,
     {| graph := Graph.exec (ops_of (post_events (graph s) post)) (graph s);
        trace := trace s ++ post_events (graph s) post |}).
Proof.
  intros Hr. unfold async.
  rewrite (onPost_body post {| graph := graph s; trace := trace s ++ _ |}) by done.
  cbn [graph trace]. f_equal. f_equal. unfold post_events.
  destruct (Graph.findEntityById _ _); cbn; by rewrite <- !app_assoc.
Qed.

End Calls.

(** ** The run *)

Section Run.
Implicit Types (s : State) (g : Graph.t) (net : Network).

Lemma ops_of_app tr1 tr2 : ops_of (tr1 ++ tr2) = ops_of tr1 ++ ops_of tr2.
Proof. apply omap_app. Qed.

Lemma ops_of_users_events users : ops_of (users_events users) = userOp <$> users.
Proof.
  induction users as [|u us IH]; [done|].
  change (users_events (u :: us)) with (user_events u ++ users_events us).
  rewrite ops_of_app, IH. done.
Qed.

Lemma forEach_users users s :
  ready (graph s) →
  forEach users (async Users onUser) s
  = (Normal tt, {| graph := Graph.exec (userOp <$> users) (graph s);
                   trace := trace s ++ users_events users |}).
Proof.
  revert s. induction users as [|u us IH]; intros s Hg.
  - cbn. unfold users_events. cbn. rewrite app_nil_r. by destruct s.
  - cbn [forEach]. erewrite bind_normal; [|by apply onUser_run].
    rewrite IH by (by apply ready_apply). cbn [graph trace].
    unfold users_events. cbn [map concat fmap list_fmap Graph.exec foldl].
    by rewrite <- app_assoc.
Qed.

Lemma forEach_posts posts s :
  ready (graph s) →
  forEach posts (async Posts onPost) s
  = (Normal tt,
     {| graph := Graph.exec (ops_of (posts_events (graph s) posts)) (graph s);
        trace := trace s ++ posts_events (graph s) posts |}).
Proof.
  revert s. induction posts as [|p ps IH]; intros s Hg.
  - cbn. rewrite app_nil_r. by destruct s.
  - cbn [forEach]. erewrite bind_normal; [|by apply onPost_run].
    rewrite IH by (by apply ready_exec). cbn [graph trace posts_events].
    by rewrite ops_of_app, exec_app, <- app_assoc.
Qed.

Lemma ready_after_users users : ready (after_users users).
Proof. apply ready_exec, ready_new. Qed.

(** Both fetches deliver: all callbacks run, nothing is thrown. *)
Lemma run_delivered net users posts :
  users_at net usersUrl = Delivered users →
  posts_at net postsUrl = Delivered posts →
  run net
  = (Normal tt,
     {| graph := after_posts users posts;
        trace := EvFetch usersUrl :: users_events users
                 ++ EvFetch postsUrl :: posts_events (after_users users) posts |}).
Proof.
  intros Hu Hp. unfold run, main, iterateUsers, iteratePosts.
  erewrite bind_normal; last first.
  { erewrite bind_normal; [|apply get_run].
    fold usersUrl. rewrite Hu. cbn [response_of response_forEach].
    apply forEach_users. apply ready_new. }
  erewrite bind_normal; [|apply get_run].
  fold postsUrl. rewrite Hp. cbn [response_of response_forEach].
  rewrite forEach_posts by apply ready_after_users.
  cbn [graph trace initial]. unfold get_events. fold usersUrl postsUrl.
  rewrite Hu, Hp. unfold after_posts, after_users. cbn [app].
  by rewrite <- !app_assoc.
Qed.

(** The fetch of the users does not deliver an array: [get] resolves to
    [undefined] or to a body without a [forEach], and the run ends there with
    the [TypeError] of [response.forEach]. *)
Lemma run_users_undelivered net :
  delivered (users_at net usersUrl) = false →
  run net
  = (Throw (forEach_error (response_of (users_at net usersUrl))),
     {| graph := Graph.new; trace := get_events (users_at net) usersApi "/users" |}).
Proof.
  intros Hu. unfold run, main, iterateUsers.
  erewrite bind_throw; [done|].
  erewrite bind_normal; [|apply get_run]. fold usersUrl.
  destruct (users_at net usersUrl) as [?|[]| |]; done.
Qed.

(** The fetch of the posts does not deliver an array: the users are in, and
    the run ends with the [TypeError] of [response.forEach]. *)
Lemma run_posts_undelivered net users :
  users_at net usersUrl = Delivered users →
  delivered (posts_at net postsUrl) = false →
  run net
  = (Throw (forEach_error (response_of (posts_at net postsUrl))),
     {| graph := after_users users;
        trace := EvFetch usersUrl :: users_events users
                 ++ get_events (posts_at net) postsApi "/posts" |}).
Proof.
  intros Hu Hp. unfold run, main, iterateUsers, iteratePosts.
  erewrite bind_normal; last first.
  { erewrite bind_normal; [|apply get_run].
    fold usersUrl. rewrite Hu. cbn [response_of response_forEach].
    apply forEach_users. apply ready_new. }
  erewrite bind_normal; [|apply get_run]. fold postsUrl.
  cbn [graph trace initial]. unfold get_events at 1. fold usersUrl. rewrite Hu.
  destruct (posts_at net postsUrl) as [?|[]| |] eqn:E; [done|..];
    unfold response_of, response_forEach, throw, after_users; cbn [graph trace app];
    by rewrite <- ?app_assoc.
Qed.

End Run.

(** * The claims *)

Section StoreClaims.
Implicit Types (g : Graph.t) (i : string) (ops : list Graph.Op).

(** C1. Identity uniqueness.  After any sequence of [createEntity] calls on a
    new store, the enumeration holds no two entries with one id; no call of
    the sequence throws under the default policy; and for an id whose latest
    call in the sequence is [createEntity(i, ty, a)], the enumeration holds
    exactly one entry with id [i], of type [ty] and attributes [a]. *)
Theorem createEntity_unique_latest (calls : list (string * string * Attributes)) :
  NoDup (Graph.id <$> Graph.entityList (Graph.exec (creation <$> calls) Graph.new))
  ∧ (∀ before c after,
       calls = before ++ c :: after →
       Graph.raises (Graph.exec (creation <$> before) Graph.new) (creation c) = false)
  ∧ (∀ before i ty a after,
       calls = before ++ (i, ty, a) :: after →
       existsb (Graph.creates i) (creation <$> after) = false →
       filter (λ e, Graph.id e = i)
              (Graph.entityList (Graph.exec (creation <$> calls) Graph.new))
       = [Graph.mkEntity i ty a]).
Proof.
  split_and!.
  - pose proof (coherent_exec (creation <$> calls) _ coherent_new) as Hc.
    rewrite entityList_ids by done. apply Hc.
  - intros before [[i ty] a] after _. cbn.
    destruct (createEntity_overwrite
                (Graph.exec (creation <$> before) Graph.new) i ty a) as (-> & _).
    + by rewrite exec_policy.
    + done.
  - intros before i ty a after -> Hlast.
    rewrite entityList_filter by apply coherent_exec, coherent_new.
    rewrite fmap_app, fmap_cons.
    change (creation (i, ty, a)) with (Graph.CreateEntity i ty a).
    by rewrite exec_lookup_latest.
Qed.

Lemma createEntity_unique_latest_witness :
  filter (λ e, Graph.id e = "user:1")
    (Graph.entityList
       (Graph.exec
          (creation <$> [("user:1", "User", AttrUser (sample_user 1));
                         ("post:1", "Post", AttrPost (sample_post 1 1));
                         ("user:1", "Member", AttrUser (sample_user 2))])
          Graph.new))
  = [Graph.mkEntity "user:1" "Member" (AttrUser (sample_user 2))]
  ∧ Graph.raises
      (Graph.exec
         (creation <$> [("user:1", "User", AttrUser (sample_user 1));
                        ("post:1", "Post", AttrPost (sample_post 1 1))])
         Graph.new)
      (creation ("user:1", "Member", AttrUser (sample_user 2))) = false.
Proof.
  split.
  - apply (proj2 (proj2 (createEntity_unique_latest
               [("user:1", "User", AttrUser (sample_user 1));
                ("post:1", "Post", AttrPost (sample_post 1 1));
                ("user:1", "Member", AttrUser (sample_user 2))]))
             [("user:1", "User", AttrUser (sample_user 1));
              ("post:1", "Post", AttrPost (sample_post 1 1))]
             "user:1" "Member" (AttrUser (sample_user 2)) []);
      reflexivity.
  - apply (proj1 (proj2 (createEntity_unique_latest
               [("user:1", "User", AttrUser (sample_user 1));
                ("post:1", "Post", AttrPost (sample_post 1 1));
                ("user:1", "Member", AttrUser (sample_user 2))]))
             [("user:1", "User", AttrUser (sample_user 1));
              ("post:1", "Post", AttrPost (sample_post 1 1))]
             ("user:1", "Member", AttrUser (sample_user 2)) []).
    reflexivity.
Defined.

(** C5. Lookup correctness.  On the store any sequence of calls leaves:
    [findEntityById(i)] returns the entity of the latest [createEntity] call
    for [i], with its type and attributes; for an id no call created it
    returns the "not found" value; and the call neither throws nor changes
    the store. *)
Theorem findEntityById_latest_or_none ops :
  (∀ before i ty a after,
     ops = before ++ Graph.CreateEntity i ty a :: after →
     existsb (Graph.creates i) after = false →
     Graph.findEntityById (Graph.exec ops Graph.new) i
     = Some (Graph.mkEntity i ty a))
  ∧ (∀ i, existsb (Graph.creates i) ops = false →
          Graph.findEntityById (Graph.exec ops Graph.new) i = None)
  ∧ (∀ i tr,
       findEntityById i {| graph := Graph.exec ops Graph.new; trace := tr |}
       = (Normal (Graph.findEntityById (Graph.exec ops Graph.new) i),
          {| graph := Graph.exec ops Graph.new;
             trace := tr ++ [EvGraph (Graph.FindEntityById i)] |})).
Proof.
  split_and!.
  - intros before i ty a after -> Hlast. by apply exec_lookup_latest.
  - intros i Hnever. by apply exec_lookup_never.
  - done.
Qed.

Lemma findEntityById_latest_or_none_witness :
  Graph.findEntityById
    (Graph.exec [Graph.CreateEntity "user:1" "User" (AttrUser (sample_user 1));
                 Graph.CreateEntity "user:1" "Member" (AttrUser (sample_user 2));
                 Graph.FindEntityById "user:1"]
       Graph.new) "user:1"
  = Some (Graph.mkEntity "user:1" "Member" (AttrUser (sample_user 2)))
  ∧ Graph.findEntityById
      (Graph.exec [Graph.CreateEntity "user:1" "User" (AttrUser (sample_user 1));
                   Graph.CreateEntity "user:1" "Member" (AttrUser (sample_user 2));
                   Graph.FindEntityById "user:1"]
         Graph.new) "user:99"
    = None.
Proof.
  split.
  - apply (proj1 (findEntityById_latest_or_none
               [Graph.CreateEntity "user:1" "User" (AttrUser (sample_user 1));
                Graph.CreateEntity "user:1" "Member" (AttrUser (sample_user 2));
                Graph.FindEntityById "user:1"])
             [Graph.CreateEntity "user:1" "User" (AttrUser (sample_user 1))]
             "user:1" "Member" (AttrUser (sample_user 2))
             [Graph.FindEntityById "user:1"]); reflexivity.
  - apply (proj1 (proj2 (findEntityById_latest_or_none
               [Graph.CreateEntity "user:1" "User" (AttrUser (sample_user 1));
                Graph.CreateEntity "user:1" "Member" (AttrUser (sample_user 2));
                Graph.FindEntityById "user:1"])) "user:99"). reflexivity.
Defined.



(** C8. Edge multiplicity.  Two [createRelationship] calls with the same
    [from], [to] and [label], on entities the store holds, both succeed and
    leave two entries, at consecutive places of the relationship sequence;
    and every successful call makes the relationship count one more. *)
Theorem createRelationship_not_deduplicated g (from to : Graph.Entity) (label : string) :
  is_Some (Graph.findEntityById g (Graph.id from)) →
  is_Some (Graph.findEntityById g (Graph.id to)) →
  let r := Graph.mkRelationship (Graph.id from) (Graph.id to) label in
  let g1 := (Graph.createRelationship g from to label).2 in
  let g2 := (Graph.createRelationship g1 from to label).2 in
  (Graph.createRelationship g from to label).1 = Graph.Ok r
  ∧ (Graph.createRelationship g1 from to label).1 = Graph.Ok r
  ∧ Graph.relationships g2 = Graph.relationships g ++ [r; r]
  ∧ Graph.relationships g2 !! Graph.relationshipCount g = Some r
  ∧ Graph.relationships g2 !! S (Graph.relationshipCount g) = Some r
  ∧ Graph.relationshipCount g2 = S (S (Graph.relationshipCount g))
  ∧ (∀ h f t l r' h',
       Graph.createRelationship h f t l = (Graph.Ok r', h') →
       Graph.relationshipCount h' = S (Graph.relationshipCount h)
       ∧ Graph.relationships h' = Graph.relationships h ++ [r']).
Proof.
  intros Hf Ht r g1 g2.
  assert (H1 : Graph.createRelationship g from to label
               = (Graph.Ok r, Graph.apply g (Graph.CreateRelationship from to label)))
    by by apply createRelationship_ok.
  assert (Hg1 : g1 = Graph.mk (Graph.policy g) (Graph.entities g) (Graph.order g)
                       (Graph.relationships g ++ [r])).
  { unfold g1, Graph.createRelationship. unfold Graph.findEntityById in *.
    destruct Hf as [? ->], Ht as [? ->]. done. }
  assert (H2 : Graph.createRelationship g1 from to label
               = (Graph.Ok r, Graph.apply g1 (Graph.CreateRelationship from to label))).
  { apply createRelationship_ok; by rewrite Hg1. }
  assert (Hg2 : Graph.relationships g2 = Graph.relationships g ++ [r; r]).
  { unfold g2, Graph.createRelationship. rewrite Hg1. cbn.
    unfold Graph.findEntityById in *. destruct Hf as [? ->], Ht as [? ->]. cbn.
    by rewrite <- app_assoc. }
  split_and!.
  - by rewrite H1.
  - by rewrite H2.
  - done.
  - rewrite Hg2. unfold Graph.relationshipCount.
    by rewrite lookup_app_r, Nat.sub_diag by lia.
  - rewrite Hg2. unfold Graph.relationshipCount.
    rewrite lookup_app_r by lia.
    by replace (S (length (Graph.relationships g)) - length (Graph.relationships g))
      with 1 by lia.
  - unfold Graph.relationshipCount. rewrite Hg2, length_app. simpl. lia.
  - intros h f t l r' h'. unfold Graph.createRelationship, Graph.relationshipCount.
    destruct (Graph.entities h !! Graph.id f); [destruct (Graph.entities h !! Graph.id t)|];
      intros [= <- <-]; cbn. rewrite length_app. simpl. split; [lia|done].
Qed.

Lemma createRelationship_not_deduplicated_witness :
  Graph.relationships
    (Graph.exec
       [Graph.CreateRelationship
          (Graph.mkEntity "user:1" "User" (AttrUser (sample_user 1)))
          (Graph.mkEntity "post:1" "Post" (AttrPost (sample_post 1 1))) "HAS";
        Graph.CreateRelationship
          (Graph.mkEntity "user:1" "User" (AttrUser (sample_user 1)))
          (Graph.mkEntity "post:1" "Post" (AttrPost (sample_post 1 1))) "HAS"]
       (Graph.exec [userOp (sample_user 1);
                    Graph.CreateEntity "post:1" "Post" (AttrPost (sample_post 1 1))]
          Graph.new))
  = [Graph.mkRelationship "user:1" "post:1" "HAS";
     Graph.mkRelationship "user:1" "post:1" "HAS"].
Proof.
  apply (createRelationship_not_deduplicated
           (Graph.exec [userOp (sample_user 1);
                        Graph.CreateEntity "post:1" "Post" (AttrPost (sample_post 1 1))]
              Graph.new)
           (Graph.mkEntity "user:1" "User" (AttrUser (sample_user 1)))
           (Graph.mkEntity "post:1" "Post" (AttrPost (sample_post 1 1))) "HAS");
    vm_compute; eauto.
Defined.

End StoreClaims.

(** ** Which entity an id denotes after a run *)

Section Created.
Implicit Types (g : Graph.t) (i : string) (ops : list Graph.Op).
Implicit Types (users : list User.t) (posts : list Post.t).

(** Among calls of which one creates [i], one is the last to do so. *)
Lemma last_creation ops i :
  existsb (Graph.creates i) ops = true →
  ∃ before ty a after,
    ops = before ++ Graph.CreateEntity i ty a :: after
    ∧ existsb (Graph.creates i) after = false.
Proof.
  induction ops as [|op ops IH]; [done|]. cbn [existsb].
  destruct (existsb (Graph.creates i) ops) eqn:E.
  - intros _. destruct IH as (before & ty & a & after & -> & Hlast); [done|].
    by exists (op :: before), ty, a, after.
  - rewrite orb_false_r. destruct op as [j ty a| |]; cbn; [|done..].
    intros ->%bool_decide_eq_true. by exists [], ty, a, ops.
Qed.

Lemma exec_lookup_created ops g i :
  Graph.policy g = Graph.Overwrite →
  existsb (Graph.creates i) ops = true →
  ∃ ty a, Graph.CreateEntity i ty a ∈ ops
          ∧ Graph.findEntityById (Graph.exec ops g) i = Some (Graph.mkEntity i ty a).
Proof.
  intros Hp (before & ty & a & after & -> & Hlast)%last_creation.
  exists ty, a. split.
  - apply elem_of_app. right. by left.
  - by apply exec_lookup_latest.
Qed.

Lemma existsb_creates_elem ops i ty a :
  Graph.CreateEntity i ty a ∈ ops → existsb (Graph.creates i) ops = true.
Proof.
  intros Hin. apply existsb_exists. exists (Graph.CreateEntity i ty a).
  split; [by apply list_elem_of_In|]. cbn. by apply bool_decide_eq_true.
Qed.

(** The calls of the post callbacks create posts only, one per record. *)
Lemma posts_events_creations g posts i ty a :
  Graph.CreateEntity i ty a ∈ ops_of (posts_events g posts) →
  ∃ post, post ∈ posts ∧ i = getPostId post ∧ ty = "Post" ∧ a = AttrPost post.
Proof.
  revert g. induction posts as [|p ps IH]; intros g; cbn [posts_events].
  - by intros ?%elem_of_nil.
  - rewrite ops_of_app. intros [Hin|Hin]%elem_of_app.
    + exists p. split; [by left|]. unfold post_events in Hin. cbn zeta in Hin.
      destruct (Graph.findEntityById _ _); cbn in Hin;
        repeat (apply elem_of_cons in Hin as [Hin|Hin]; [by simplify_eq|]);
        by apply elem_of_nil in Hin.
    + destruct (IH _ Hin) as (post & ? & ?). exists post. split; [by right|done].
Qed.

Lemma posts_events_creates g posts post :
  post ∈ posts →
  Graph.CreateEntity (getPostId post) "Post" (AttrPost post)
  ∈ ops_of (posts_events g posts).
Proof.
  revert g. induction posts as [|p ps IH]; intros g; cbn [posts_events].
  - by intros ?%elem_of_nil.
  - rewrite ops_of_app. intros [->|Hin]%elem_of_cons; apply elem_of_app.
    + left. unfold post_events. cbn. by left.
    + right. by apply IH.
Qed.

Lemma users_creations users i ty a :
  Graph.CreateEntity i ty a ∈ userOp <$> users →
  ∃ user, user ∈ users ∧ i = getUserId user ∧ ty = "User" ∧ a = AttrUser user.
Proof.
  intros (user & Heq & Hin)%list_elem_of_fmap. exists user.
  unfold userOp in Heq. by simplify_eq.
Qed.

(** The kind tag tells users from posts, and the number is recovered from
    the id. *)
Lemma user_post_ids_differ user post : getUserId user ≠ getPostId post.
Proof. unfold getUserId, getPostId. cbn. discriminate. Qed.

Lemma author_post_ids_differ post post' : authorId post ≠ getPostId post'.
Proof. unfold authorId, getPostId. cbn. discriminate. Qed.

Lemma getUserId_inj user user' :
  getUserId user = getUserId user' → User.id user = User.id user'.
Proof.
  unfold getUserId, Number_toString. cbn. intros [= H]. by apply pretty_Z_inj in H.
Qed.

Lemma getPostId_inj post post' :
  getPostId post = getPostId post' → Post.id post = Post.id post'.
Proof.
  unfold getPostId, Number_toString. cbn. intros [= H]. by apply pretty_Z_inj in H.
Qed.

Lemma posts_events_keep_users g posts user :
  existsb (Graph.creates (getUserId user)) (ops_of (posts_events g posts)) = false.
Proof.
  apply not_true_is_false. intros (before & ty & a & after & Heq & _)%last_creation.
  destruct (posts_events_creations g posts (getUserId user) ty a) as (p & _ & Hid & _).
  - rewrite Heq. apply elem_of_app. right. by left.
  - by apply user_post_ids_differ in Hid.
Qed.

(** Once the users are in, each is found under its id, as a ["User"] whose
    attributes are those of the last record with that number. *)
Lemma after_users_lookup users user :
  user ∈ users →
  ∃ user', user' ∈ users ∧ User.id user' = User.id user
           ∧ Graph.findEntityById (after_users users) (getUserId user)
             = Some (Graph.mkEntity (getUserId user) "User" (AttrUser user')).
Proof.
  intros Hin. unfold after_users.
  destruct (exec_lookup_created (userOp <$> users) Graph.new (getUserId user))
    as (ty & a & Hop & Hfind); [done| |].
  - apply (existsb_creates_elem _ _ "User" (AttrUser user)).
    apply list_elem_of_fmap. by exists user.
  - apply users_creations in Hop as (user' & Hin' & Hid & -> & ->).
    exists user'. split_and!; [done|by apply getUserId_inj|done].
Qed.

Lemma after_posts_lookup_user users posts user :
  Graph.findEntityById (after_posts users posts) (getUserId user)
  = Graph.findEntityById (after_users users) (getUserId user).
Proof.
  unfold after_posts, Graph.findEntityById.
  apply exec_lookup_other, posts_events_keep_users.
Qed.

Lemma after_posts_lookup_post users posts post :
  post ∈ posts →
  ∃ post', post' ∈ posts ∧ Post.id post' = Post.id post
           ∧ Graph.findEntityById (after_posts users posts) (getPostId post)
             = Some (Graph.mkEntity (getPostId post) "Post" (AttrPost post')).
Proof.
  intros Hin. unfold after_posts.
  destruct (exec_lookup_created (ops_of (posts_events (after_users users) posts))
              (after_users users) (getPostId post))
    as (ty & a & Hop & Hfind).
  - apply ready_after_users.
  - eapply existsb_creates_elem. by apply posts_events_creates.
  - apply posts_events_creations in Hop as (post' & Hin' & Hid & -> & ->).
    exists post'. split_and!; [done|by apply getPostId_inj|done].
Qed.

End Created.

(** ** The phases of a run *)

Section Phases.
Implicit Types (net : Network) (users : list User.t) (posts : list Post.t).

Lemma ops_of_get_events {R} (fetch : string → FetchOutcome R) this path :
  ops_of (get_events fetch this path) = [].
Proof. unfold get_events. by destruct (fetch _). Qed.

(** How a run ends, by what the two fetches do. *)
Lemma run_cases net :
  (∃ users posts,
      users_at net usersUrl = Delivered users
      ∧ posts_at net postsUrl = Delivered posts
      ∧ run net
        = (Normal tt,
           {| graph := after_posts users posts;
              trace := EvFetch usersUrl :: users_events users
                       ++ EvFetch postsUrl :: posts_events (after_users users) posts |}))
  ∨ (∃ users,
      users_at net usersUrl = Delivered users
      ∧ delivered (posts_at net postsUrl) = false
      ∧ run net
        = (Throw (forEach_error (response_of (posts_at net postsUrl))),
           {| graph := after_users users;
              trace := EvFetch usersUrl :: users_events users
                       ++ get_events (posts_at net) postsApi "/posts" |}))
  ∨ (delivered (users_at net usersUrl) = false
     ∧ run net
       = (Throw (forEach_error (response_of (users_at net usersUrl))),
          {| graph := Graph.new;
             trace := get_events (users_at net) usersApi "/users" |})).
Proof.
  destruct (delivered (users_at net usersUrl)) eqn:Du.
  - destruct (users_at net usersUrl) as [users| | |] eqn:Eu; try done.
    destruct (delivered (posts_at net postsUrl)) eqn:Dp.
    + destruct (posts_at net postsUrl) as [posts| | |] eqn:Ep; try done.
      left. exists users, posts. split_and!; [done..|]. by apply run_delivered.
    + right. left. exists users. split_and!; [done..|].
      by apply run_posts_undelivered.
  - right. right. split; [done|]. by apply run_users_undelivered.
Qed.

(** The graph a run ends with is the one its trace builds. *)
Lemma run_consistent net : consistent (run net).2.
Proof.
  unfold consistent, replay.
  destruct (run_cases net)
    as [(us & ps & _ & _ & ->)|[(us & _ & _ & ->)|(_ & ->)]]; cbn [snd graph trace].
  - change (ops_of (EvFetch usersUrl :: ?l)) with (ops_of l).
    rewrite ops_of_app, ops_of_users_events.
    change (ops_of (EvFetch postsUrl :: ?l)) with (ops_of l).
    by rewrite exec_app.
  - change (ops_of (EvFetch usersUrl :: ?l)) with (ops_of l).
    by rewrite ops_of_app, ops_of_users_events, ops_of_get_events, app_nil_r.
  - by rewrite ops_of_get_events.
Qed.

Lemma users_events_not_about_posts users :
  forallb (λ ev, negb (about_posts ev)) (users_events users) = true.
Proof.
  induction users as [|u us IH]; [done|].
  change (users_events (u :: us)) with (user_events u ++ users_events us).
  by rewrite forallb_app, IH.
Qed.

Lemma posts_events_not_about_users g posts :
  forallb (λ ev, negb (about_users ev)) (posts_events g posts) = true.
Proof.
  revert g. induction posts as [|p ps IH]; intros g; [done|].
  cbn [posts_events]. rewrite forallb_app, IH, andb_true_r.
  unfold post_events. cbn zeta. by destruct (Graph.findEntityById _ _).
Qed.

Lemma users_get_not_about_posts net :
  forallb (λ ev, negb (about_posts ev)) (get_events (users_at net) usersApi "/users")
  = true.
Proof. unfold get_events. by destruct (users_at net _). Qed.

Lemma posts_get_not_about_users net :
  forallb (λ ev, negb (about_users ev)) (get_events (posts_at net) postsApi "/posts")
  = true.
Proof. unfold get_events. by destruct (posts_at net _). Qed.

(** A run is a people phase followed by a post phase. *)
Lemma run_phases net :
  ∃ before after,
    trace (run net).2 = before ++ after
    ∧ forallb (λ ev, negb (about_posts ev)) before = true
    ∧ forallb (λ ev, negb (about_users ev)) after = true.
Proof.
  destruct (run_cases net)
    as [(us & ps & _ & _ & ->)|[(us & _ & _ & ->)|(_ & ->)]]; cbn [snd graph trace].
  - exists (EvFetch usersUrl :: users_events us),
           (EvFetch postsUrl :: posts_events (after_users us) ps).
    split_and!; [done| |].
    + cbn [forallb]. by rewrite users_events_not_about_posts.
    + cbn [forallb]. by rewrite posts_events_not_about_users.
  - exists (EvFetch usersUrl :: users_events us),
           (get_events (posts_at net) postsApi "/posts").
    split_and!; [done| |].
    + cbn [forallb]. by rewrite users_events_not_about_posts.
    + apply posts_get_not_about_users.
  - exists (get_events (users_at net) usersApi "/users"), [].
    split_and!; [by rewrite app_nil_r| |done].
    apply users_get_not_about_posts.
Qed.

Lemma phases_ordered (before after : list Event) i j ev_u ev_p :
  forallb (λ ev, negb (about_posts ev)) before = true →
  forallb (λ ev, negb (about_users ev)) after = true →
  (before ++ after) !! i = Some ev_u →
  (before ++ after) !! j = Some ev_p →
  about_users ev_u = true →
  about_posts ev_p = true →
  i < j.
Proof.
  intros Hb Ha Hi Hj Hu Hp.
  rewrite forallb_forall in Hb, Ha.
  destruct (decide (j < length before)) as [Hjlt|Hjge].
  - rewrite lookup_app_l in Hj by done.
    apply list_elem_of_lookup_2, list_elem_of_In, Hb in Hj.
    by rewrite Hp in Hj.
  - destruct (decide (i < length before)) as [Hilt|Hige]; [lia|].
    rewrite lookup_app_r in Hi by lia.
    apply list_elem_of_lookup_2, list_elem_of_In, Ha in Hi.
    by rewrite Hu in Hi.
Qed.

End Phases.

Section DriverClaims.
Implicit Types (net : Network) (users : list User.t) (posts : list Post.t).

Lemma createRelationship_appends g from to label r g' :
  Graph.createRelationship g from to label = (Graph.Ok r, g') →
  Graph.relationships g' = Graph.relationships g ++ [r]
  ∧ Graph.entities g' = Graph.entities g.
Proof.
  unfold Graph.createRelationship.
  destruct (Graph.entities g !! Graph.id from);
    [destruct (Graph.entities g !! Graph.id to)|]; by intros [= <- <-].
Qed.

(** C2. Referential integrity.  Whatever calls are made on a store, default
    or strict, every relationship it holds has both endpoints found by
    [findEntityById]; a call leaves the relationship sequence as it is or
    appends one relationship whose endpoints the store held before the call;
    the graph of a run is the one its trace builds, and at every point of
    every run (after the first [n] events, for every [n]) the graph built so
    far has the property. *)
Theorem referential_integrity :
  (∀ ops, Graph.integral (Graph.exec ops Graph.new)
          ∧ Graph.integral (Graph.exec ops Graph.newStrict))
  ∧ (∀ g op,
       Graph.relationships (Graph.apply g op) = Graph.relationships g
       ∨ ∃ r, Graph.relationships (Graph.apply g op) = Graph.relationships g ++ [r]
              ∧ is_Some (Graph.findEntityById g (Graph.from r))
              ∧ is_Some (Graph.findEntityById g (Graph.to r)))
  ∧ (∀ net, graph (run net).2 = replay (trace (run net).2)
            ∧ Graph.integral (graph (run net).2))
  ∧ (∀ net n, Graph.integral (replay (take n (trace (run net).2)))).
Proof.
  split_and!.
  - intros ops. split; apply integral_exec; apply integral_new.
  - apply apply_relationships.
  - intros net. pose proof (run_consistent net) as Hc. unfold consistent in Hc.
    split; [done|]. rewrite Hc. apply integral_exec, integral_new.
  - intros net n. apply integral_exec, integral_new.
Qed.

(** C3. Relationship wiring.  On any store reached from a new one, the
    callback on a post completes without throwing; the post is then found
    under its id; and if the entity with id ["user:" + post.userId] is found
    once the post is stored, exactly one relationship is appended, from that
    entity to the post, labeled ["HAS"], and if it is not found the
    relationship sequence is unchanged.  With person 1 and posts 10 (by 1)
    and 11 (by 99) the run ends normally with one user, two posts, and the
    single relationship from [user:1] to [post:10]. *)
Theorem post_wiring :
  (∀ ops tr post,
     ∃ s',
       onPost post {| graph := Graph.exec ops Graph.new; trace := tr |}
       = (Normal tt, s')
       ∧ Graph.findEntityById (graph s') (getPostId post) = Some (postEntityOf post)
       ∧ match Graph.findEntityById
                 (Graph.apply (Graph.exec ops Graph.new)
                    (Graph.CreateEntity (getPostId post) "Post" (AttrPost post)))
                 ("user:" +:+ Number_toString (Post.userId post)) with
         | Some person =>
             Graph.id person = "user:" +:+ Number_toString (Post.userId post)
             ∧ Graph.relationships (graph s')
               = Graph.relationships (Graph.exec ops Graph.new)
                 ++ [Graph.mkRelationship (Graph.id person) (getPostId post) "HAS"]
         | None =>
             Graph.relationships (graph s')
             = Graph.relationships (Graph.exec ops Graph.new)
         end)
  ∧ (∀ name username email address phone website company title body title' body',
       let person := User.mk 1 name username email address phone website company in
       let post10 := Post.mk 10 1 title body in
       let post11 := Post.mk 11 99 title' body' in
       let result :=
         run (constant_network (Delivered [person]) (Delivered [post10; post11])) in
       result.1 = Normal tt
       ∧ Graph.entityList (graph result.2)
         = [Graph.mkEntity "user:1" "User" (AttrUser person);
            Graph.mkEntity "post:10" "Post" (AttrPost post10);
            Graph.mkEntity "post:11" "Post" (AttrPost post11)]
       ∧ length (filter (λ e, Graph.type e = "User") (Graph.entityList (graph result.2)))
         = 1
       ∧ length (filter (λ e, Graph.type e = "Post") (Graph.entityList (graph result.2)))
         = 2
       ∧ Graph.relationships (graph result.2)
         = [Graph.mkRelationship "user:1" "post:10" "HAS"]).
Proof.
  split.
  - intros ops tr post.
    set (g := Graph.exec ops Graph.new).
    assert (Hg : ready g) by apply ready_exec, ready_new.
    eexists. split; [by apply onPost_body|]. cbn [graph trace].
    unfold post_events. cbn zeta. fold (authorId post).
    change (Graph.createEntity g (getPostId post) "Post" (AttrPost post)).2
      with (Graph.apply g (Graph.CreateEntity (getPostId post) "Post" (AttrPost post))).
    set (g1 := Graph.apply g _).
    assert (Hpost : Graph.findEntityById g1 (getPostId post) = Some (postEntityOf post)).
    { destruct Hg as [Hp _]. unfold g1, Graph.findEntityById. cbn [Graph.apply].
      destruct (createEntity_overwrite g (getPostId post) "Post" (AttrPost post) Hp)
        as (_ & -> & _). apply lookup_insert_eq. }
    assert (Hrel : Graph.relationships g1 = Graph.relationships g)
      by apply createEntity_relationships.
    destruct (Graph.findEntityById g1 (authorId post)) as [person|] eqn:Eu.
    + destruct (author_found g post person Hg Eu) as [Hid Hcr].
      apply createRelationship_appends in Hcr as [Hr He].
      cbn [ops_of omap list_omap app Graph.exec foldl]. fold g1.
      cbn [Graph.apply] in *. fold g1 in Hr, He. split_and!; [|done|].
      * unfold Graph.findEntityById in *. by rewrite He.
      * by rewrite Hr, Hid, Hrel.
    + cbn [ops_of omap list_omap app Graph.exec foldl]. fold g1.
      cbn [Graph.apply]. done.
  - intros. vm_compute. done.
Qed.

(** C4. Entity identity.  The id of a user record is ["user:"] followed by
    its number and the id of a post record is ["post:"] followed by its
    number, so no user id is a post id, whatever the numbers.  When the users
    are delivered, every user record is found after the run under
    ["user:" + n], as a ["User"] carrying the last delivered record numbered
    [n]; when the posts are delivered too, every post record is found under
    ["post:" + n], as a ["Post"]. *)
Theorem entity_ids_by_kind :
  (∀ user, getUserId user = "user:" +:+ Number_toString (User.id user))
  ∧ (∀ post, getPostId post = "post:" +:+ Number_toString (Post.id post))
  ∧ (∀ user post, getUserId user ≠ getPostId post)
  ∧ (∀ net users user,
       users_at net usersUrl = Delivered users →
       user ∈ users →
       ∃ user', user' ∈ users ∧ User.id user' = User.id user
         ∧ Graph.findEntityById (graph (run net).2)
             ("user:" +:+ Number_toString (User.id user))
           = Some (Graph.mkEntity ("user:" +:+ Number_toString (User.id user))
                     "User" (AttrUser user')))
  ∧ (∀ net users posts post,
       users_at net usersUrl = Delivered users →
       posts_at net postsUrl = Delivered posts →
       post ∈ posts →
       ∃ post', post' ∈ posts ∧ Post.id post' = Post.id post
         ∧ Graph.findEntityById (graph (run net).2)
             ("post:" +:+ Number_toString (Post.id post))
           = Some (Graph.mkEntity ("post:" +:+ Number_toString (Post.id post))
                     "Post" (AttrPost post'))).
Proof.
  split_and!; [done|done|apply user_post_ids_differ| |].
  - intros net users user Hu Hin.
    destruct (after_users_lookup users user Hin) as (user' & Hin' & Hid & Hfind).
    exists user'. split_and!; [done..|]. fold (getUserId user).
    destruct (run_cases net)
      as [(us & ps & Hu' & _ & ->)|[(us & Hu' & _ & ->)|(Hu' & _)]].
    + assert (us = users) as -> by congruence. cbn [snd graph].
      by rewrite after_posts_lookup_user.
    + by assert (us = users) as -> by congruence.
    + by rewrite Hu in Hu'.
  - intros net users posts post Hu Hp Hin.
    rewrite (run_delivered net users posts Hu Hp). cbn [snd graph].
    by apply after_posts_lookup_post.
Qed.

Lemma entity_ids_by_kind_witness :
  (∃ user', user' ∈ [sample_user 7] ∧ User.id user' = 7%Z
     ∧ Graph.findEntityById
         (graph (run (constant_network (Delivered [sample_user 7])
                        (Delivered [sample_post 7 7]))).2)
         ("user:" +:+ Number_toString 7)
       = Some (Graph.mkEntity ("user:" +:+ Number_toString 7) "User" (AttrUser user')))
  ∧ (∃ post', post' ∈ [sample_post 7 7] ∧ Post.id post' = 7%Z
       ∧ Graph.findEntityById
           (graph (run (constant_network (Delivered [sample_user 7])
                          (Delivered [sample_post 7 7]))).2)
           ("post:" +:+ Number_toString 7)
         = Some (Graph.mkEntity ("post:" +:+ Number_toString 7) "Post" (AttrPost post'))).
Proof.
  split.
  - apply (proj1 (proj2 (proj2 (proj2 entity_ids_by_kind)))
             (constant_network (Delivered [sample_user 7]) (Delivered [sample_post 7 7]))
             [sample_user 7] (sample_user 7)).
    + reflexivity.
    + left.
  - apply (proj2 (proj2 (proj2 (proj2 entity_ids_by_kind)))
             (constant_network (Delivered [sample_user 7]) (Delivered [sample_post 7 7]))
             [sample_user 7] [sample_post 7 7] (sample_post 7 7)).
    + reflexivity.
    + reflexivity.
    + left.
Defined.

(** C6, as the code has it.  When the fetch of the users fails with a
    [FetchError], the error is logged and no callback is called, but the run
    does not go on: it ends by throwing a [TypeError], before any post is
    fetched, and the graph is left empty.  When the fetch of the posts fails,
    the users are in and the run ends by throwing in the same way. *)
Theorem failed_fetch_ends_run :
  (∀ error (answer : FetchOutcome Post.t),
     run (constant_network (Failed error) answer)
     = (Throw undefined_forEach,
        {| graph := Graph.new;
           trace := [EvFetch "https://jsonplaceholder.typicode.com/users";
                     EvLog (log_line usersApi "/users" error)] |}))
  ∧ (∀ users error,
       run (constant_network (Delivered users) (Failed error))
       = (Throw undefined_forEach,
          {| graph := after_users users;
             trace := EvFetch "https://jsonplaceholder.typicode.com/users"
                      :: users_events users
                      ++ [EvFetch "https://jsonplaceholder.typicode.com/posts";
                          EvLog (log_line postsApi "/posts" error)] |}))
  ∧ run (constant_network
           (Failed (mkFetchError (Some "ECONNREFUSED") "connect ECONNREFUSED"))
           (Delivered [sample_post 1 1]))
    = (Throw (TypeError "Cannot read properties of undefined (reading 'forEach')"),
       {| graph := Graph.new;
          trace := [EvFetch "https://jsonplaceholder.typicode.com/users";
                    EvLog ("Endpoint: https://jsonplaceholder.typicode.com/users"
                           +:+ "|Code: ECONNREFUSED|Message: connect ECONNREFUSED")] |}).
Proof.
  split_and!.
  - intros error answer. by rewrite run_users_undelivered.
  - intros users error.
    by rewrite (run_posts_undelivered _ users).
  - by rewrite run_users_undelivered.
Qed.

(** C9. People before posts.  In the trace of every run, every event of the
    people ingestion (the fetch of the users, a user callback entered or
    settled, a user entity created) comes before every event of the post
    ingestion (the fetch of the posts, a post callback entered or settled, a
    post entity created, a lookup, a relationship created).  When the users
    are delivered, the trace starts with their fetch followed, for each user
    record in order, by its callback entered, its entity created and its
    callback settled, and no event of the people ingestion comes after. *)
Theorem users_before_posts net :
  (∀ i j ev_u ev_p,
     trace (run net).2 !! i = Some ev_u →
     trace (run net).2 !! j = Some ev_p →
     about_users ev_u = true →
     about_posts ev_p = true →
     i < j)
  ∧ (∀ users,
       users_at net usersUrl = Delivered users →
       ∃ rest,
         trace (run net).2 = EvFetch usersUrl :: users_events users ++ rest
         ∧ forallb (λ ev, negb (about_users ev)) rest = true
         ∧ ops_of (users_events users)
           = (λ user, Graph.CreateEntity (getUserId user) "User" (AttrUser user))
             <$> users).
Proof.
  split.
  - destruct (run_phases net) as (before & after & -> & Hb & Ha).
    intros i j ev_u ev_p. by apply phases_ordered.
  - intros users Hu.
    destruct (run_cases net)
      as [(us & ps & Hu' & _ & ->)|[(us & Hu' & _ & ->)|(Hu' & _)]].
    + assert (us = users) as -> by congruence. cbn [snd trace]. eexists.
      split_and!; [done| |apply ops_of_users_events].
      cbn [forallb]. by rewrite posts_events_not_about_users.
    + assert (us = users) as -> by congruence. cbn [snd trace]. eexists.
      split_and!; [done| |apply ops_of_users_events].
      apply posts_get_not_about_users.
    + by rewrite Hu in Hu'.
Qed.

Lemma users_before_posts_witness :
  1 < 5
  ∧ ∃ rest,
      trace (run (constant_network (Delivered [sample_user 1])
                    (Delivered [sample_post 10 1]))).2
      = EvFetch usersUrl :: users_events [sample_user 1] ++ rest
      ∧ forallb (λ ev, negb (about_users ev)) rest = true
      ∧ ops_of (users_events [sample_user 1])
        = (λ user, Graph.CreateEntity (getUserId user) "User" (AttrUser user))
          <$> [sample_user 1].
Proof.
  split.
  - apply (proj1 (users_before_posts
                    (constant_network (Delivered [sample_user 1])
                       (Delivered [sample_post 10 1])))
             1 5 (EvCallbackEnter Users) (EvCallbackEnter Posts)); reflexivity.
  - apply (proj2 (users_before_posts
                    (constant_network (Delivered [sample_user 1])
                       (Delivered [sample_post 10 1])))
             [sample_user 1]). reflexivity.
Defined.

End DriverClaims.

(** * Further properties of the client and of the record sources *)

Section Client.
Implicit Types (s : State) (this : ThirdPartyApiClient) (path : string).

Lemma string_app_assoc (a b c : string) : (a +:+ b) +:+ c = a +:+ (b +:+ c).
Proof.
  induction a as [|x a IH]; [done|].
  change (String x ((a +:+ b) +:+ c) = String x (a +:+ (b +:+ c))).
  by rewrite IH.
Qed.

Lemma logged_app tr1 tr2 : logged (tr1 ++ tr2) = logged tr1 ++ logged tr2.
Proof. apply omap_app. Qed.

(** X1.  [get] never throws, whatever the fetch does: it resolves to the body when
    the fetch delivers one (an array or not) and to [undefined] otherwise,
    leaves the graph alone,
    and prints one line, naming the url it requested, exactly when the
    failure is a [FetchError]; any other failure leaves no line. *)
Theorem get_swallows_failures {R} (fetch : string → FetchOutcome R) this path s :
  ∃ s',
    get fetch this path s
    = (Normal match fetch (withBaseUrl this path) with
              | Delivered data => Body data
              | DeliveredNonArray data => NonArrayBody data
              | Failed _ | FailedOtherwise => Undefined
              end, s')
    ∧ graph s' = graph s
    ∧ logged (trace s')
      = logged (trace s)
        ++ match fetch (withBaseUrl this path) with
           | Failed error =>
               ["Endpoint: " +:+ withBaseUrl this path
                +:+ "|Code: " +:+ show_code (code error)
                +:+ "|Message: " +:+ message error]
           | Delivered _ | DeliveredNonArray _ | FailedOtherwise => []
           end.
Proof.
  exists {| graph := graph s; trace := trace s ++ get_events fetch this path |}.
  rewrite get_run. split_and!; [|done|].
  - by destruct (fetch _).
  - cbn [trace]. rewrite logged_app. f_equal. unfold get_events.
    destruct (fetch _); [done|done| |done].
    unfold logged, log_line, withBaseUrl. cbn [omap list_omap].
    by rewrite string_app_assoc.
Qed.

(** X2.  Two different paths never give the same endpoint on one client. *)
Theorem withBaseUrl_paths_differ this path path' :
  path ≠ path' → withBaseUrl this path ≠ withBaseUrl this path'.
Proof. intros Hne Heq. by apply Hne, (String.app_inj (baseUrl this)). Qed.

Lemma withBaseUrl_paths_differ_witness :
  withBaseUrl usersApi "/users" ≠ withBaseUrl usersApi "/posts".
Proof. apply (withBaseUrl_paths_differ usersApi "/users" "/posts"). discriminate. Defined.

Lemma forEach_app {R} (l1 l2 : list R) (callback : R → M unit) s :
  forEach (l1 ++ l2) callback s
  = match forEach l1 callback s with
    | (Normal _, s1) => forEach l2 callback s1
    | (Throw e, s1) => (Throw e, s1)
    end.
Proof.
  revert s. induction l1 as [|x l1 IH]; intros s; [done|].
  cbn [app forEach]. unfold mbind, M_bind.
  destruct (callback x s) as [[[]|e] s1]; [apply IH|done].
Qed.

(** X4.  A callback that throws stops the iteration: the records before it have
    been processed, the exception leaves [iteratePosts] (or [iterateUsers])
    as it is, and the records after it are never passed to the callback. *)
Theorem iterate_stops_at_throw net this s s1 s2 e :
  (∀ (callback : Post.t → M unit) before post after,
     posts_at net (withBaseUrl this "/posts") = Delivered (before ++ post :: after) →
     forEach before callback
       {| graph := graph s;
          trace := trace s ++ [EvFetch (withBaseUrl this "/posts")] |}
     = (Normal tt, s1) →
     callback post s1 = (Throw e, s2) →
     iteratePosts net this callback s = (Throw e, s2))
  ∧ (∀ (callback : User.t → M unit) before user after,
       users_at net (withBaseUrl this "/users") = Delivered (before ++ user :: after) →
       forEach before callback
         {| graph := graph s;
            trace := trace s ++ [EvFetch (withBaseUrl this "/users")] |}
       = (Normal tt, s1) →
       callback user s1 = (Throw e, s2) →
       iterateUsers net this callback s = (Throw e, s2)).
Proof.
  split.
  - intros callback before post after Hd Hb Hc. unfold iteratePosts.
    erewrite bind_normal; [|apply get_run]. unfold get_events. rewrite Hd.
    cbn [response_of response_forEach]. rewrite forEach_app, Hb.
    cbn [forEach]. by erewrite bind_throw.
  - intros callback before user after Hd Hb Hc. unfold iterateUsers.
    erewrite bind_normal; [|apply get_run]. unfold get_events. rewrite Hd.
    cbn [response_of response_forEach]. rewrite forEach_app, Hb.
    cbn [forEach]. by erewrite bind_throw.
Qed.

Lemma iterate_stops_at_throw_witness :
  iteratePosts
    (constant_network (Delivered [])
       (Delivered [sample_post 1 1; sample_post 2 1; sample_post 3 1]))
    postsApi (picky 2) initial
  = (Throw (TypeError "unexpected post"),
     {| graph := Graph.new;
        trace := [EvFetch postsUrl; EvLog "qui est esse"] |}).
Proof.
  apply (proj1 (iterate_stops_at_throw
                  (constant_network (Delivered [])
                     (Delivered [sample_post 1 1; sample_post 2 1; sample_post 3 1]))
                  postsApi initial
                  {| graph := Graph.new;
                     trace := [EvFetch postsUrl; EvLog "qui est esse"] |}
                  {| graph := Graph.new;
                     trace := [EvFetch postsUrl; EvLog "qui est esse"] |}
                  (TypeError "unexpected post"))
           (picky 2) [sample_post 1 1] (sample_post 2 1) [sample_post 3 1]);
    reflexivity.
Defined.

(** X5.  When the fetch fails, [iteratePosts] and [iterateUsers] throw
    a [TypeError] whatever the callback and the client are: [forEach] is read
    off [undefined]; the callback is never called and the graph is as it
    was. *)
Theorem iterate_undelivered_throws net this s :
  (∀ callback,
     failed (posts_at net (withBaseUrl this "/posts")) = true →
     iteratePosts net this callback s
     = (Throw (TypeError "Cannot read properties of undefined (reading 'forEach')"),
        {| graph := graph s;
           trace := trace s ++ get_events (posts_at net) this "/posts" |}))
  ∧ (∀ callback,
       failed (users_at net (withBaseUrl this "/users")) = true →
       iterateUsers net this callback s
       = (Throw (TypeError "Cannot read properties of undefined (reading 'forEach')"),
          {| graph := graph s;
             trace := trace s ++ get_events (users_at net) this "/users" |})).
Proof.
  split; intros callback Hd.
  - unfold iteratePosts. erewrite bind_normal; [|apply get_run].
    by destruct (posts_at net _).
  - unfold iterateUsers. erewrite bind_normal; [|apply get_run].
    by destruct (users_at net _).
Qed.

Lemma iterate_undelivered_throws_witness :
  iteratePosts (constant_network (Delivered []) FailedOtherwise)
    (mkClient "http://localhost:3000") (picky 2) initial
  = (Throw (TypeError "Cannot read properties of undefined (reading 'forEach')"),
     {| graph := Graph.new; trace := [EvFetch "http://localhost:3000/posts"] |}).
Proof.
  apply (proj1 (iterate_undelivered_throws
                  (constant_network (Delivered []) FailedOtherwise)
                  (mkClient "http://localhost:3000") initial) (picky 2)).
  reflexivity.
Defined.

(** X3.  The entity ids tell records apart exactly as their numbers do: two users
    (two posts) have the same entity id if and only if they have the same
    number, and the id the driver looks a post's author up by is the entity
    id of a user if and only if [post.userId] is that user's number. *)
Theorem entity_ids_injective :
  (∀ user user', getUserId user = getUserId user' ↔ User.id user = User.id user')
  ∧ (∀ post post', getPostId post = getPostId post' ↔ Post.id post = Post.id post')
  ∧ (∀ post user,
       "user:" +:+ Number_toString (Post.userId post) = getUserId user
       ↔ Post.userId post = User.id user).
Proof.
  split_and!.
  - intros user user'. split; [apply getUserId_inj|].
    unfold getUserId. by intros ->.
  - intros post post'. split; [apply getPostId_inj|].
    unfold getPostId. by intros ->.
  - intros post user. unfold getUserId, Number_toString. split.
    + cbn. intros [= H]. by apply pretty_Z_inj in H.
    + by intros ->.
Qed.

Lemma entity_ids_injective_witness :
  "user:" +:+ Number_toString (Post.userId (sample_post 10 3))
  = getUserId (sample_user 3).
Proof.
  apply (proj2 (proj2 entity_ids_injective) (sample_post 10 3) (sample_user 3)).
  reflexivity.
Defined.

End Client.

(** * Further properties of the driver *)

Section Steps.
Implicit Types (g : Graph.t) (i : string) (post : Post.t) (user : User.t).
Implicit Types (users : list User.t) (posts : list Post.t).

Lemma ops_of_post_events g post :
  ops_of (post_events g post)
  = postOp post :: Graph.FindEntityById (authorId post)
    :: match Graph.findEntityById (Graph.apply g (postOp post)) (authorId post) with
       | Some person =>
           [Graph.CreateRelationship person (postEntityOf post) "HAS"]
       | None => []
       end.
Proof.
  unfold post_events. cbn zeta.
  change (Graph.createEntity g (getPostId post) "Post" (AttrPost post)).2
    with (Graph.apply g (postOp post)).
  by destruct (Graph.findEntityById _ _).
Qed.

Lemma author_lookup_after_post g post post' :
  Graph.findEntityById (Graph.apply g (postOp post)) (authorId post')
  = Graph.findEntityById g (authorId post').
Proof.
  unfold Graph.findEntityById. apply apply_lookup_other. cbn.
  apply bool_decide_eq_false. intros Heq.
  by apply (author_post_ids_differ post' post).
Qed.

(** What the callback on one post does to the store. *)
Lemma post_step g post :
  ready g →
  Graph.entities (Graph.exec (ops_of (post_events g post)) g)
  = <[getPostId post := postEntityOf post]> (Graph.entities g)
  ∧ Graph.order (Graph.exec (ops_of (post_events g post)) g)
    = Graph.order (Graph.apply g (postOp post))
  ∧ Graph.relationships (Graph.exec (ops_of (post_events g post)) g)
    = Graph.relationships g
      ++ match Graph.findEntityById g (authorId post) with
         | Some _ => [has post]
         | None => []
         end.
Proof.
  intros Hg. pose proof Hg as [Hp _]. rewrite ops_of_post_events.
  destruct (createEntity_overwrite g (getPostId post) "Post" (AttrPost post) Hp)
    as (_ & He & Hr).
  destruct (Graph.findEntityById (Graph.apply g (postOp post)) (authorId post))
    as [person|] eqn:Eu.
  - destruct (author_found g post person Hg Eu) as [_ Hcr].
    apply createRelationship_appends in Hcr as [Hrel Hent].
    rewrite author_lookup_after_post in Eu. rewrite Eu.
    cbn [Graph.exec foldl]. cbn [Graph.apply] in *. unfold postOp in *.
    cbn [Graph.apply]. split_and!.
    + by rewrite Hent, He.
    + apply createRelationship_order.
    + by rewrite Hrel, Hr.
  - rewrite author_lookup_after_post in Eu. rewrite Eu.
    cbn [Graph.exec foldl Graph.apply]. unfold postOp. cbn [Graph.apply].
    split_and!; [done|done|]. by rewrite Hr, app_nil_r.
Qed.

Lemma posts_events_keep g posts i :
  (∀ post, i ≠ getPostId post) →
  existsb (Graph.creates i) (ops_of (posts_events g posts)) = false.
Proof.
  intros Hi. apply not_true_is_false.
  intros (before & ty & a & after & Heq & _)%last_creation.
  destruct (posts_events_creations g posts i ty a) as (p & _ & Hid & _).
  - rewrite Heq. apply elem_of_app. right. by left.
  - by apply Hi in Hid.
Qed.

(** Once the users are in, the author of a post is found exactly when a user
    has the number [post.userId]. *)
Lemma after_users_author users post :
  is_Some (Graph.findEntityById (after_users users) (authorId post))
  ↔ authored users post.
Proof.
  unfold authored. rewrite bool_decide_spec, list_elem_of_fmap. split.
  - intros [e He]. unfold after_users in He.
    destruct (existsb (Graph.creates (authorId post)) (userOp <$> users)) eqn:Ex.
    + apply (exec_lookup_created _ Graph.new) in Ex as (ty & a & Hop & _); [|done].
      apply users_creations in Hop as (user & Hin & Hid & _).
      exists user. split; [|done].
      unfold authorId, getUserId, Number_toString in Hid. cbn in Hid.
      injection Hid as Hid. by apply pretty_Z_inj in Hid.
    + apply exec_lookup_never in Ex. congruence.
  - intros (user & Hid & Hin).
    destruct (after_users_lookup users user Hin) as (user' & _ & _ & Hfind).
    unfold authorId. rewrite Hid. fold (getUserId user). rewrite Hfind. eauto.
Qed.

(** The relationships the post phase appends: one per post whose author is
    in the store, in the order of the posts. *)
Lemma posts_relationships users g posts :
  ready g →
  (∀ post, is_Some (Graph.findEntityById g (authorId post)) ↔ authored users post) →
  Graph.relationships (Graph.exec (ops_of (posts_events g posts)) g)
  = Graph.relationships g ++ (has <$> filter (λ post, authored users post) posts).
Proof.
  revert g. induction posts as [|p ps IH]; intros g Hg Hauth.
  - cbn. by rewrite app_nil_r.
  - cbn [posts_events]. rewrite ops_of_app, exec_app.
    destruct (post_step g p Hg) as (He & _ & Hr).
    rewrite IH.
    + rewrite Hr. rewrite <- app_assoc. f_equal.
      destruct (Graph.findEntityById g (authorId p)) as [person|] eqn:Eu.
      * rewrite filter_cons_True; [done|]. apply Hauth. eauto.
      * rewrite filter_cons_False; [done|]. intros Ha. apply Hauth in Ha.
        rewrite Eu in Ha. by destruct Ha.
    + by apply ready_exec.
    + intros post. rewrite <- Hauth. unfold Graph.findEntityById. rewrite He.
      rewrite lookup_insert_ne; [done|].
      intros Heq. by apply (author_post_ids_differ post p).
Qed.

Lemma omap_ext_in {A B} (f f' : A → option B) (l : list A) :
  (∀ x, x ∈ l → f x = f' x) → omap f l = omap f' l.
Proof.
  induction l as [|x l IH]; intros H; [done|].
  cbn. rewrite (H x) by left. rewrite IH; [done|].
  intros y Hy. apply H. by right.
Qed.

(** Creating an entity under a fresh id puts it at the end of the
    enumeration. *)
Lemma entityList_fresh g i ty a :
  Graph.coherent g →
  Graph.entities g !! i = None →
  Graph.entityList (Graph.apply g (Graph.CreateEntity i ty a))
  = Graph.entityList g ++ [Graph.mkEntity i ty a].
Proof.
  intros (_ & Hdom & _) Hi. unfold Graph.entityList. cbn [Graph.apply].
  unfold Graph.createEntity. rewrite Hi. cbn.
  rewrite omap_app. cbn. rewrite lookup_insert_eq. f_equal.
  apply omap_ext_in. intros j Hj. apply lookup_insert_ne. intros ->.
  apply Hdom in Hj. rewrite Hi in Hj. by destruct Hj.
Qed.

Lemma after_users_entityList users :
  NoDup (User.id <$> users) →
  Graph.entityList (after_users users) = userEntityOf <$> users.
Proof.
  induction users as [|u us IH] using rev_ind; intros Hnd; [done|].
  rewrite fmap_app in Hnd. apply NoDup_app in Hnd as (Hnd & Hfresh & _).
  unfold after_users. rewrite fmap_app, exec_app. cbn [fmap list_fmap Graph.exec foldl].
  fold (after_users us).
  change (userOp u) with (Graph.CreateEntity (getUserId u) "User" (AttrUser u)).
  rewrite entityList_fresh.
  - rewrite IH by done. by rewrite fmap_app.
  - apply ready_after_users.
  - apply exec_lookup_never. apply not_true_is_false. intros Ex.
    apply last_creation in Ex as (before & ty & a & after & Heq & _).
    destruct (users_creations us (getUserId u) ty a) as (u' & Hin & Hid & _).
    + rewrite Heq. apply elem_of_app. right. by left.
    + apply getUserId_inj in Hid. apply (Hfresh (User.id u)).
      * apply list_elem_of_fmap. exists u'. by split.
      * cbn. by left.
Qed.

Lemma posts_entityList g posts :
  ready g →
  NoDup (Post.id <$> posts) →
  (∀ post, post ∈ posts → Graph.entities g !! getPostId post = None) →
  Graph.entityList (Graph.exec (ops_of (posts_events g posts)) g)
  = Graph.entityList g ++ (postEntityOf <$> posts).
Proof.
  revert g. induction posts as [|p ps IH]; intros g Hg Hnd Hfresh.
  - cbn. by rewrite app_nil_r.
  - cbn [posts_events]. rewrite ops_of_app, exec_app.
    destruct (post_step g p Hg) as (He & Ho & _).
    apply NoDup_cons in Hnd as [Hp Hnd].
    rewrite IH; [|by apply ready_exec|done|].
    + rewrite fmap_cons, (cons_middle _ (Graph.entityList g)), app_assoc. f_equal.
      unfold postEntityOf.
      rewrite <- (entityList_fresh g (getPostId p) "Post" (AttrPost p));
        [|apply Hg|apply Hfresh; by left].
      destruct Hg as [Hpol _].
      destruct (createEntity_overwrite g (getPostId p) "Post" (AttrPost p) Hpol)
        as (_ & Hent & _).
      unfold Graph.entityList. rewrite Ho, He. unfold postOp, postEntityOf.
      cbn [Graph.apply]. by rewrite Hent.
    + intros post Hin. rewrite He. rewrite lookup_insert_ne.
      * apply Hfresh. by right.
      * intros Heq%getPostId_inj. apply Hp. apply list_elem_of_fmap.
        exists post. by split.
Qed.

Lemma createEntity_calls_app tr1 tr2 :
  createEntity_calls (tr1 ++ tr2) = createEntity_calls tr1 ++ createEntity_calls tr2.
Proof. apply omap_app. Qed.

Lemma createEntity_calls_users users :
  createEntity_calls (users_events users) = userEntityOf <$> users.
Proof.
  induction users as [|u us IH]; [done|].
  change (users_events (u :: us)) with (user_events u ++ users_events us).
  by rewrite createEntity_calls_app, IH.
Qed.

Lemma createEntity_calls_posts g posts :
  createEntity_calls (posts_events g posts) = postEntityOf <$> posts.
Proof.
  revert g. induction posts as [|p ps IH]; intros g; [done|].
  cbn [posts_events]. rewrite createEntity_calls_app, IH.
  unfold post_events. cbn zeta. by destruct (Graph.findEntityById _ _).
Qed.

(** An entity a store holds was put there by a call. *)
Lemma exec_lookup_origin ops i e :
  Graph.entities (Graph.exec ops Graph.new) !! i = Some e →
  ∃ ty a, Graph.CreateEntity i ty a ∈ ops ∧ e = Graph.mkEntity i ty a.
Proof.
  intros He. destruct (existsb (Graph.creates i) ops) eqn:Ex.
  - apply (exec_lookup_created _ Graph.new) in Ex as (ty & a & Hop & Hfind); [|done].
    exists ty, a. split; [done|]. unfold Graph.findEntityById in Hfind. congruence.
  - apply exec_lookup_never in Ex. unfold Graph.findEntityById in Ex. congruence.
Qed.

End Steps.

Section RunResults.
Implicit Types (net : Network) (users : list User.t) (posts : list Post.t).

Lemma after_users_relationships users : Graph.relationships (after_users users) = [].
Proof.
  unfold after_users. induction users as [|u us IH] using rev_ind; [done|].
  rewrite fmap_app, exec_app. cbn [fmap list_fmap Graph.exec foldl].
  unfold userOp at 2. cbn [Graph.apply]. by rewrite createEntity_relationships.
Qed.

Lemma after_users_no_posts users post :
  Graph.entities (after_users users) !! getPostId post = None.
Proof.
  apply exec_lookup_never. apply not_true_is_false. intros Ex.
  apply last_creation in Ex as (before & ty & a & after & Heq & _).
  destruct (users_creations users (getPostId post) ty a) as (u & _ & Hid & _).
  - rewrite Heq. apply elem_of_app. right. by left.
  - symmetry in Hid. by apply user_post_ids_differ in Hid.
Qed.

(** X8.  The relationships of a run whose fetches both deliver: one ["HAS"]
    relationship from [user:userId] to [post:id] for each delivered post
    whose [userId] is the number of a delivered user, in the order of the
    posts, and nothing else; so never more relationships than posts. *)
Theorem run_relationships net users posts :
  users_at net usersUrl = Delivered users →
  posts_at net postsUrl = Delivered posts →
  Graph.relationships (graph (run net).2)
  = (λ post, Graph.mkRelationship ("user:" +:+ Number_toString (Post.userId post))
               ("post:" +:+ Number_toString (Post.id post)) "HAS")
    <$> filter (λ post, authored users post) posts
  ∧ Graph.relationshipCount (graph (run net).2) ≤ length posts.
Proof.
  intros Hu Hp. rewrite (run_delivered net users posts Hu Hp). cbn [snd graph].
  assert (Hrel : Graph.relationships (after_posts users posts)
                 = has <$> filter (λ post, authored users post) posts).
  { unfold after_posts.
    rewrite (posts_relationships users); [|apply ready_after_users|].
    - by rewrite after_users_relationships.
    - apply after_users_author. }
  split; [done|]. unfold Graph.relationshipCount.
  rewrite Hrel, length_fmap. apply length_filter.
Qed.

Lemma run_relationships_witness :
  Graph.relationships
    (graph (run (constant_network (Delivered [sample_user 1; sample_user 2])
                   (Delivered [sample_post 10 2; sample_post 11 99;
                               sample_post 12 2]))).2)
  = [Graph.mkRelationship "user:2" "post:10" "HAS";
     Graph.mkRelationship "user:2" "post:12" "HAS"].
Proof.
  apply (run_relationships
           (constant_network (Delivered [sample_user 1; sample_user 2])
              (Delivered [sample_post 10 2; sample_post 11 99; sample_post 12 2]))
           [sample_user 1; sample_user 2]
           [sample_post 10 2; sample_post 11 99; sample_post 12 2]); reflexivity.
Defined.

(** X9.  When the delivered users have pairwise different numbers, and so have
    the delivered posts, the graph enumerates one entity per record: the
    users in the order delivered, then the posts in the order delivered. *)
Theorem run_entities_distinct net users posts :
  users_at net usersUrl = Delivered users →
  posts_at net postsUrl = Delivered posts →
  NoDup (User.id <$> users) →
  NoDup (Post.id <$> posts) →
  Graph.entityList (graph (run net).2)
  = ((λ user, Graph.mkEntity (getUserId user) "User" (AttrUser user)) <$> users)
    ++ ((λ post, Graph.mkEntity (getPostId post) "Post" (AttrPost post)) <$> posts)
  ∧ Graph.entityCount (graph (run net).2) = length users + length posts.
Proof.
  intros Hu Hp Hndu Hndp. rewrite (run_delivered net users posts Hu Hp).
  cbn [snd graph].
  assert (Hl : Graph.entityList (after_posts users posts)
               = (userEntityOf <$> users) ++ (postEntityOf <$> posts)).
  { unfold after_posts. rewrite posts_entityList.
    - by rewrite after_users_entityList.
    - apply ready_after_users.
    - done.
    - intros post _. apply after_users_no_posts. }
  split; [done|]. unfold Graph.entityCount.
  by rewrite Hl, length_app, !length_fmap.
Qed.

Lemma run_entities_distinct_witness :
  Graph.entityCount
    (graph (run (constant_network (Delivered [sample_user 1; sample_user 2])
                   (Delivered [sample_post 1 2; sample_post 2 9]))).2)
  = 2 + 2.
Proof.
  apply (run_entities_distinct
           (constant_network (Delivered [sample_user 1; sample_user 2])
              (Delivered [sample_post 1 2; sample_post 2 9]))
           [sample_user 1; sample_user 2] [sample_post 1 2; sample_post 2 9]);
    [reflexivity|reflexivity|..];
    (apply (bool_decide_unpack _); vm_compute; exact I).
Defined.

(** X10.  [createEntity] is called exactly once for each delivered record, in the
    order of delivery, all users before all posts, also when numbers
    repeat. *)
Theorem createEntity_once_per_record net users posts :
  users_at net usersUrl = Delivered users →
  posts_at net postsUrl = Delivered posts →
  createEntity_calls (trace (run net).2)
  = ((λ user, Graph.mkEntity (getUserId user) "User" (AttrUser user)) <$> users)
    ++ ((λ post, Graph.mkEntity (getPostId post) "Post" (AttrPost post)) <$> posts).
Proof.
  intros Hu Hp. rewrite (run_delivered net users posts Hu Hp). cbn [snd trace].
  change (createEntity_calls (EvFetch usersUrl :: ?l)) with (createEntity_calls l).
  rewrite createEntity_calls_app, createEntity_calls_users.
  change (createEntity_calls (EvFetch postsUrl :: ?l)) with (createEntity_calls l).
  by rewrite createEntity_calls_posts.
Qed.

Lemma createEntity_once_per_record_witness :
  createEntity_calls
    (trace (run (constant_network (Delivered [sample_user 1; sample_user 1])
                   (Delivered [sample_post 5 1]))).2)
  = [Graph.mkEntity "user:1" "User" (AttrUser (sample_user 1));
     Graph.mkEntity "user:1" "User" (AttrUser (sample_user 1));
     Graph.mkEntity "post:5" "Post" (AttrPost (sample_post 5 1))].
Proof.
  apply (createEntity_once_per_record
           (constant_network (Delivered [sample_user 1; sample_user 1])
              (Delivered [sample_post 5 1]))
           [sample_user 1; sample_user 1] [sample_post 5 1]); reflexivity.
Defined.

(** X11.  The graph of a run holds delivered records only: every entity it
    enumerates is a delivered user, of type ["User"] under the id made from
    its own number, or a delivered post, of type ["Post"] under the id made
    from its own number. *)
Theorem stored_entities_are_records net e :
  e ∈ Graph.entityList (graph (run net).2) →
  (∃ users user,
      users_at net usersUrl = Delivered users ∧ user ∈ users
      ∧ e = Graph.mkEntity ("user:" +:+ Number_toString (User.id user)) "User"
              (AttrUser user))
  ∨ (∃ posts post,
      posts_at net postsUrl = Delivered posts ∧ post ∈ posts
      ∧ e = Graph.mkEntity ("post:" +:+ Number_toString (Post.id post)) "Post"
              (AttrPost post)).
Proof.
  unfold Graph.entityList. intros (i & _ & He)%list_elem_of_omap.
  destruct (run_cases net)
    as [(us & ps & Hu & Hp & Hr)|[(us & Hu & _ & Hr)|(_ & Hr)]];
    rewrite Hr in He; cbn [snd graph] in He.
  - unfold after_posts, after_users in He. rewrite <- exec_app in He.
    apply exec_lookup_origin in He as (ty & a & Hop & ->).
    apply elem_of_app in Hop as [Hop|Hop].
    + apply users_creations in Hop as (u & Hin & -> & -> & ->).
      left. by exists us, u.
    + apply posts_events_creations in Hop as (p & Hin & -> & -> & ->).
      right. by exists ps, p.
  - unfold after_users in He.
    apply exec_lookup_origin in He as (ty & a & Hop & ->).
    apply users_creations in Hop as (u & Hin & -> & -> & ->).
    left. by exists us, u.
  - unfold Graph.new in He. cbn [Graph.entities] in He.
    by rewrite lookup_empty in He.
Qed.

Lemma stored_entities_are_records_witness :
  (∃ users user,
      Delivered [sample_user 3] = Delivered users ∧ user ∈ users
      ∧ Graph.mkEntity "post:4" "Post" (AttrPost (sample_post 4 3))
        = Graph.mkEntity ("user:" +:+ Number_toString (User.id user)) "User"
            (AttrUser user))
  ∨ (∃ posts post,
      Delivered [sample_post 4 3] = Delivered posts ∧ post ∈ posts
      ∧ Graph.mkEntity "post:4" "Post" (AttrPost (sample_post 4 3))
        = Graph.mkEntity ("post:" +:+ Number_toString (Post.id post)) "Post"
            (AttrPost post)).
Proof.
  apply (stored_entities_are_records
           (constant_network (Delivered [sample_user 3]) (Delivered [sample_post 4 3]))
           (Graph.mkEntity "post:4" "Post" (AttrPost (sample_post 4 3)))).
  vm_compute. right. left.
Defined.

End RunResults.

Section RunOutcome.
Implicit Types (net : Network) (users : list User.t) (posts : list Post.t).

Lemma users_events_quiet users :
  existsb rejected (users_events users) = false
  ∧ logged (users_events users) = []
  ∧ ∀ url, fetched url (users_events users) = false.
Proof.
  induction users as [|u us (IH1 & IH2 & IH3)]; [done|].
  change (users_events (u :: us)) with (user_events u ++ users_events us).
  split_and!.
  - by rewrite existsb_app, IH1.
  - by rewrite logged_app, IH2.
  - intros url. unfold fetched in *. by rewrite existsb_app, IH3.
Qed.

Lemma post_events_quiet g post :
  existsb rejected (post_events g post) = false
  ∧ logged (post_events g post) = []
  ∧ ∀ url, fetched url (post_events g post) = false.
Proof.
  unfold post_events. cbn zeta. by destruct (Graph.findEntityById _ _).
Qed.

Lemma posts_events_quiet g posts :
  existsb rejected (posts_events g posts) = false
  ∧ logged (posts_events g posts) = []
  ∧ ∀ url, fetched url (posts_events g posts) = false.
Proof.
  revert g. induction posts as [|p ps IH]; intros g; [done|].
  destruct (IH (Graph.exec (ops_of (post_events g p)) g)) as (IH1 & IH2 & IH3).
  destruct (post_events_quiet g p) as (H1 & H2 & H3).
  cbn [posts_events]. split_and!.
  - by rewrite existsb_app, IH1, H1.
  - by rewrite logged_app, IH2, H2.
  - intros url. unfold fetched in *. by rewrite existsb_app, IH3, H3.
Qed.




(** X7.  What a run requests and prints.  The users are always requested; the
    posts are requested exactly when the users were delivered (as an array).
    A run prints
    at most one line: the line for the [FetchError] of the users, or, the
    users delivered, the line for the [FetchError] of the posts; a failure
    that is no [FetchError] prints nothing. *)
Theorem run_requests_and_logs net :
  fetched (withBaseUrl usersApi "/users") (trace (run net).2) = true
  ∧ fetched (withBaseUrl postsApi "/posts") (trace (run net).2)
    = delivered (users_at net (withBaseUrl usersApi "/users"))
  ∧ logged (trace (run net).2)
    = match users_at net (withBaseUrl usersApi "/users") with
      | Failed error => [log_line usersApi "/users" error]
      | DeliveredNonArray _ | FailedOtherwise => []
      | Delivered _ =>
          match posts_at net (withBaseUrl postsApi "/posts") with
          | Failed error => [log_line postsApi "/posts" error]
          | Delivered _ | DeliveredNonArray _ | FailedOtherwise => []
          end
      end.
Proof.
  fold usersUrl postsUrl.
  destruct (run_cases net)
    as [(us & ps & Hu & Hp & ->)|[(us & Hu & Hp & ->)|(Hu & ->)]];
    cbn [fst snd trace].
  - destruct (users_events_quiet us) as (_ & Hlu & Hfu).
    destruct (posts_events_quiet (after_users us) ps) as (_ & Hlp & Hfp).
    rewrite Hu, Hp. split_and!; [done| |].
    + unfold fetched in *. cbn [existsb]. rewrite existsb_app, Hfu. done.
    + change (logged (EvFetch usersUrl :: ?l)) with (logged l).
      rewrite logged_app, Hlu.
      change (logged (EvFetch postsUrl :: ?l)) with (logged l). by rewrite Hlp.
  - destruct (users_events_quiet us) as (_ & Hlu & Hfu).
    rewrite Hu. split_and!; [done| |].
    + unfold fetched in *. cbn [existsb]. rewrite existsb_app, Hfu.
      unfold get_events. fold postsUrl. by destruct (posts_at net postsUrl).
    + change (logged (EvFetch usersUrl :: ?l)) with (logged l).
      rewrite logged_app, Hlu. unfold get_events. fold postsUrl.
      by destruct (posts_at net postsUrl).
  - unfold get_events. fold usersUrl.
    by destruct (users_at net usersUrl).
Qed.

End RunOutcome.

(** * Handles, and the graph as a function of the records *)

Section Handles.
Implicit Types (g : Graph.t) (ops : list Graph.Op) (e : Graph.Entity).

(** A handle the store gave out carries an id the store held at the start or
    a call created. *)
Lemma handles_from_origin g ops e :
  Graph.coherent g →
  e ∈ handles_from g ops →
  is_Some (Graph.entities g !! Graph.id e)
  ∨ existsb (Graph.creates (Graph.id e)) ops = true.
Proof.
  revert g. induction ops as [|op ops IH]; intros g Hg; cbn [handles_from].
  - by intros ?%elem_of_nil.
  - intros [Hhere|Hlater]%elem_of_app.
    + destruct op as [i ty a|i|f t l].
      * right. cbn [existsb Graph.creates].
        assert (Graph.id e = i) as ->; [|by rewrite bool_decide_eq_true_2].
        unfold Graph.createEntity in Hhere.
        destruct (Graph.entities g !! i); [destruct (Graph.policy g)|];
          cbn in Hhere; try (by apply elem_of_nil in Hhere);
          by apply list_elem_of_singleton in Hhere as ->.
      * left. unfold Graph.findEntityById in Hhere.
        destruct (Graph.entities g !! i) as [e'|] eqn:E; cbn in Hhere;
          [|by apply elem_of_nil in Hhere].
        apply list_elem_of_singleton in Hhere as ->.
        destruct Hg as (_ & _ & Hid). rewrite (Hid _ _ E). eauto.
      * by apply elem_of_nil in Hhere.
    + destruct (IH _ (coherent_apply g op Hg) Hlater) as [Hheld|Hcreated].
      * destruct (Graph.creates (Graph.id e) op) eqn:Ec.
        -- right. cbn [existsb]. by rewrite Ec.
        -- left. by rewrite <- (apply_lookup_other g op).
      * right. cbn [existsb]. by rewrite Hcreated, orb_true_r.
Qed.

(** A handle obtained from a store instance carries an id one of the calls
    made on the instance created: a handle whose id no call created was never
    obtained from it. *)
Lemma handles_created ops e :
  e ∈ handles ops → existsb (Graph.creates (Graph.id e)) ops = true.
Proof.
  intros He. destruct (handles_from_origin Graph.new ops e coherent_new He)
    as [[? Hheld]|Hcreated]; [|done].
  unfold Graph.new in Hheld. cbn in Hheld. by rewrite lookup_empty in Hheld.
Qed.


End Handles.

Section Determined.
Implicit Types (g : Graph.t) (ops : list Graph.Op) (net : Network).
Implicit Types (users : list User.t) (posts : list Post.t).

Lemma created_by_app ops1 ops2 :
  created_by (ops1 ++ ops2) = created_by ops1 ++ created_by ops2.
Proof. apply omap_app. Qed.

Lemma created_by_ops_of tr : created_by (ops_of tr) = createEntity_calls tr.
Proof.
  induction tr as [|ev tr IH]; [done|].
  destruct ev as [| | | |[| |]]; cbn; first [exact IH|f_equal; exact IH].
Qed.

Lemma created_by_users users : created_by (userOp <$> users) = userEntityOf <$> users.
Proof. induction users as [|u us IH]; [done|]. cbn. f_equal. exact IH. Qed.

(** Under the default policy the mapping after a sequence of calls holds,
    for each id, the last entity [createEntity] was asked for under it. *)
Lemma exec_entities ops g :
  Graph.policy g = Graph.Overwrite →
  Graph.entities (Graph.exec ops g) = latest (Graph.entities g) (created_by ops).
Proof.
  revert g. induction ops as [|op ops IH]; intros g Hp; [done|].
  cbn [Graph.exec foldl]. fold (Graph.exec ops (Graph.apply g op)).
  rewrite IH by (by rewrite apply_policy).
  destruct op as [i ty a| |f t l]; cbn [created_by omap list_omap Graph.apply].
  - destruct (createEntity_overwrite g i ty a Hp) as (_ & -> & _). done.
  - done.
  - by rewrite createRelationship_entities.
Qed.

(** The creation order after a sequence of calls lists the ids in the order
    in which they were first created. *)
Lemma exec_order ops g :
  ready g →
  Graph.order (Graph.exec ops g)
  = first_occurrences (Graph.order g) (Graph.id <$> created_by ops).
Proof.
  revert g. induction ops as [|op ops IH]; intros g Hg; [done|].
  cbn [Graph.exec foldl]. fold (Graph.exec ops (Graph.apply g op)).
  rewrite IH by (by apply ready_apply).
  destruct Hg as [Hp (_ & Hdom & _)].
  destruct op as [i ty a| |f t l]; cbn [created_by omap list_omap Graph.apply].
  - cbn [fmap list_fmap first_occurrences foldl Graph.id]. f_equal.
    unfold Graph.createEntity.
    destruct (Graph.entities g !! i) as [e0|] eqn:E.
    + rewrite Hp. cbn. rewrite decide_True; [done|]. apply Hdom. eauto.
    + cbn. rewrite decide_False; [done|]. intros Hin%Hdom.
      rewrite E in Hin. by destruct Hin.
  - done.
  - by rewrite createRelationship_order.
Qed.

Lemma graph_ext g g' :
  Graph.policy g = Graph.policy g' →
  Graph.entities g = Graph.entities g' →
  Graph.order g = Graph.order g' →
  Graph.relationships g = Graph.relationships g' →
  g = g'.
Proof. destruct g, g'. cbn. by intros -> -> -> ->. Qed.

(** The store the driver builds from the delivered records is the graph
    written out from the records. *)
Lemma after_posts_ingest users posts : after_posts users posts = ingest users posts.
Proof.
  assert (Hops : ∀ g, created_by (ops_of (posts_events g posts))
                      = postEntityOf <$> posts)
    by (intros g; by rewrite created_by_ops_of, createEntity_calls_posts).
  apply graph_ext; unfold ingest; cbn [Graph.policy Graph.entities Graph.order
    Graph.relationships].
  - unfold after_posts, after_users. by rewrite !exec_policy.
  - unfold after_posts, after_users. rewrite <- exec_app.
    rewrite exec_entities by done.
    by rewrite created_by_app, created_by_users, Hops.
  - unfold after_posts, after_users. rewrite <- exec_app.
    rewrite exec_order by apply ready_new.
    rewrite created_by_app, created_by_users, Hops, fmap_app.
    by rewrite <- !list_fmap_compose.
  - unfold after_posts.
    rewrite (posts_relationships users); [|apply ready_after_users|].
    + by rewrite after_users_relationships.
    + apply after_users_author.
Qed.

(** The graph of a run, whatever the network does, is the store built from
    the records handed to the callbacks. *)
Lemma run_graph net :
  graph (run net).2 = after_posts (users_delivered net) (posts_delivered net).
Proof.
  unfold users_delivered, posts_delivered.
  destruct (run_cases net)
    as [(us & ps & Hu & Hp & ->)|[(us & Hu & Hp & ->)|(Hu & ->)]];
    cbn [snd graph].
  - by rewrite Hu, Hp.
  - rewrite Hu. by destruct (posts_at net postsUrl).
  - by destruct (users_at net usersUrl).
Qed.

Lemma createEntity_calls_get {R} (fetch : string → FetchOutcome R) this path :
  createEntity_calls (get_events fetch this path) = [].
Proof. unfold get_events. by destruct (fetch _). Qed.

Lemma run_createEntity_calls net :
  createEntity_calls (trace (run net).2)
  = (userEntityOf <$> users_delivered net) ++ (postEntityOf <$> posts_delivered net).
Proof.
  unfold users_delivered, posts_delivered.
  destruct (run_cases net)
    as [(us & ps & Hu & Hp & ->)|[(us & Hu & Hp & ->)|(Hu & ->)]];
    cbn [snd trace].
  - rewrite Hu, Hp.
    change (createEntity_calls (EvFetch usersUrl :: ?l)) with (createEntity_calls l).
    rewrite createEntity_calls_app, createEntity_calls_users.
    change (createEntity_calls (EvFetch postsUrl :: ?l)) with (createEntity_calls l).
    by rewrite createEntity_calls_posts.
  - rewrite Hu.
    change (createEntity_calls (EvFetch usersUrl :: ?l)) with (createEntity_calls l).
    rewrite createEntity_calls_app, createEntity_calls_users, createEntity_calls_get.
    by destruct (posts_at net postsUrl).
  - rewrite createEntity_calls_get. by destruct (users_at net usersUrl).
Qed.

(** C10. Determinism.  The graph a run ends with is fixed by the records the
    two sources hand over, and by nothing else of the run: it is the graph
    written out from those two sequences, in which each id denotes the last
    record delivered under it, the ids are in the order of first delivery and
    the relationships in the order of the posts.  So two runs whose sources
    hand over the same users and the same posts end with identical graphs,
    the same entities in the same creation order and the same relationships
    in the same order, also when the networks answer differently elsewhere,
    fail differently, print different lines, or one run ends normally and
    the other by throwing.  The records handed over are the ones
    [createEntity] is called for, in that order. *)
Theorem run_deterministic net1 net2 :
  users_delivered net1 = users_delivered net2 →
  posts_delivered net1 = posts_delivered net2 →
  graph (run net1).2 = ingest (users_delivered net1) (posts_delivered net1)
  ∧ graph (run net1).2 = graph (run net2).2
  ∧ Graph.entityList (graph (run net1).2) = Graph.entityList (graph (run net2).2)
  ∧ Graph.relationships (graph (run net1).2) = Graph.relationships (graph (run net2).2)
  ∧ createEntity_calls (trace (run net1).2)
    = ((λ user, Graph.mkEntity (getUserId user) "User" (AttrUser user))
       <$> users_delivered net1)
      ++ ((λ post, Graph.mkEntity (getPostId post) "Post" (AttrPost post))
          <$> posts_delivered net1).
Proof.
  intros Hu Hp.
  assert (Heq : graph (run net1).2 = graph (run net2).2)
    by (by rewrite !run_graph, Hu, Hp).
  split_and!.
  - by rewrite run_graph, after_posts_ingest.
  - done.
  - by rewrite Heq.
  - by rewrite Heq.
  - apply run_createEntity_calls.
Qed.

Lemma run_deterministic_witness :
  graph (run (constant_network (Delivered [sample_user 1; sample_user 1])
                (Failed (mkFetchError (Some "ECONNRESET") "socket hang up")))).2
  = graph (run {| users_at := λ url, if bool_decide (url = usersUrl)
                                     then Delivered [sample_user 1; sample_user 1]
                                     else DeliveredNonArray JsonNull;
                  posts_at := λ url, if bool_decide (url = postsUrl)
                                     then Delivered []
                                     else FailedOtherwise |}).2.
Proof.
  apply (run_deterministic
           (constant_network (Delivered [sample_user 1; sample_user 1])
              (Failed (mkFetchError (Some "ECONNRESET") "socket hang up")))
           {| users_at := λ url, if bool_decide (url = usersUrl)
                                 then Delivered [sample_user 1; sample_user 1]
                                 else DeliveredNonArray JsonNull;
              posts_at := λ url, if bool_decide (url = postsUrl)
                                 then Delivered []
                                 else FailedOtherwise |});
    reflexivity.
Defined.

End Determined.
